(** * The PostgreSQL schema loader of xo ([loaders/postgres.go])

    A shallow embedding of the loader's functions and the properties its
    specification states about them.  Go strings are byte strings
    ([string] of [ascii]); Go's [int] results are integers in [Z]; a Go
    pair [(value, error)] is a [result]; a [panic] is the [Panics] outcome. *)

From Stdlib Require Import String Ascii List ZArith Bool Arith Lia.
From Stdlib Require Import DecimalString DecimalPos DecimalN Permutation.
From Equations Require Import Equations.
Import ListNotations.

Open Scope Z_scope.
Open Scope string_scope.

(** ** Go values *)

(** An [error] value: what the database layer hands back, the sentinel
    [sql.ErrNoRows] of [database/sql], or a message built by [fmt.Errorf]. *)
Inductive error : Type :=
| DriverError (msg : string)
| ErrNoRows
| Errorf (msg : string).

(** The Go return convention [(v, err)]: [Ok v] is [(v, nil)] and [Fail e]
    is [(nil, e)]. *)
Inductive result (A : Type) : Type :=
| Ok (v : A)
| Fail (e : error).
Arguments Ok {A} v.
Arguments Fail {A} e.

(** A call either returns or panics. *)
Inductive outcome (A : Type) : Type :=
| Returns (v : A)
| Panics (msg : string).
Arguments Returns {A} v.
Arguments Panics {A} msg.

(** ** Byte-string primitives of Go *)

Module GoString.

(** The byte [c] lies in the range [lo..hi]. *)
Definition byte_in (lo hi : N) (c : ascii) : bool :=
  ((lo <=? N_of_ascii c) && (N_of_ascii c <=? hi))%N.

(** The byte [c] has the code [n]. *)
Definition is_byte (n : N) (c : ascii) : bool := (N_of_ascii c =? n)%N.

(** [s[n:]] for [n <= len(s)]. *)
Fixpoint from (n : nat) (s : string) : string :=
  match n, s with
  | O, _ => s
  | S n', String _ r => from n' r
  | S _, EmptyString => EmptyString
  end.

(** [s[:n]] for [n <= len(s)]. *)
Fixpoint upto (n : nat) (s : string) : string :=
  match n, s with
  | O, _ => EmptyString
  | S n', String c r => String c (upto n' r)
  | S _, EmptyString => EmptyString
  end.

(** [strings.HasPrefix]:
    [len(s) >= len(prefix) && s[:len(prefix)] == prefix]. *)
Definition HasPrefix (s prefix : string) : bool :=
  (String.length prefix <=? String.length s)%nat
  && String.eqb (upto (String.length prefix) s) prefix.

(** [strings.HasSuffix]:
    [len(s) >= len(suffix) && s[len(s)-len(suffix):] == suffix]. *)
Definition HasSuffix (s suffix : string) : bool :=
  (String.length suffix <=? String.length s)%nat
  && String.eqb (from (String.length s - String.length suffix) s) suffix.

(** The last byte of [s]. *)
Fixpoint last_byte (s : string) : option ascii :=
  match s with
  | EmptyString => None
  | String c EmptyString => Some c
  | String _ r => last_byte r
  end.

End GoString.
Import GoString.

(** ** [PgRelkind] *)

Section Relkind.

(** Modelled from the spec: [internal.RelType] is declared outside this
    file; the specification has it enumerate Table and View and still speaks
    of "any other value", so the type is taken as the unsigned integers and
    its two constants [internal.Table] and [internal.View] as parameters. *)
Definition RelType := N.
Variables Table View : RelType.

Definition PgRelkind (relType : RelType) : outcome string :=
  if N.eqb relType Table then Returns "r"
  else if N.eqb relType View then Returns "v"
  else Panics "unsupported RelType".

End Relkind.

(** ** [PgParseType] *)

(** [internal.ArgType], as far as this file uses it: the method
    [ParsePrecision], which returns the type name without its precision
    annotation, the precision and the scale. *)
Record ArgType : Type := {
  ParsePrecision : string -> string * Z * Z
}.

Definition inspect {A : Type} (a : A) : { b : A | a = b } := exist _ a eq_refl.

(** The type name ["char"], with its quotation marks. *)
Definition quoted_char : string := String "034" ("char" ++ String "034" "").

Section Translate.

(** [snaker.SnakeToCamelIdentifier] belongs to a library outside the
    repository; the loader only applies it to names that are not in its
    table. *)
Variable SnakeToCamelIdentifier : string -> string.

Definition nonSliceDt (dt : string) : string * string :=
  if dt =? "boolean" then ("pgtype.Bool{}", "pgtype.Bool")
  else if (dt =? "character") || (dt =? "character varying") || (dt =? "text")
          || (dt =? "money") || (dt =? "inet")
  then ("pgtype.Text{}", "pgtype.Text")
  else if (dt =? "smallint") || (dt =? "smallserial")
  then ("pgtype.Int2{}", "pgtype.Int2")
  else if (dt =? "integer") || (dt =? "serial")
  then ("pgtype.Int4{}", "pgtype.Int4")
  else if (dt =? "bigint") || (dt =? "bigserial")
  then ("pgtype.Int8{}", "pgtype.Int8")
  else if dt =? "real" then ("pgtype.Float4{}", "pgtype.Float4")
  else if (dt =? "numeric") || (dt =? "double precision")
  then ("pgtype.Float8{}", "pgtype.Float8")
  else if dt =? "bytea" then ("pgtype.Bytea{}", "pgtype.Bytea")
  else if dt =? "jsonb" then ("pgtype.JSONB{}", "pgtype.JSONB")
  else if dt =? "date" then ("pgtype.Date{}", "pgtype.Date")
  else if (dt =? "timestamp with time zone") || (dt =? "time with time zone")
  then ("pgtype.Timestamp{}", "pgtype.Timestamp")
  else if (dt =? "time without time zone") || (dt =? "timestamp without time zone")
  then ("pgtype.Timestamptz{}", "pgtype.Timestamptz")
  else if dt =? "interval" then ("pgtype.Interval{}", "pgtype.Interval")
  else if dt =? quoted_char
  then ("pgtype.QChar{}", "pgtype.QChar")
  else if dt =? "bit" then ("pgtype.Bit{}", "pgtype.Bit")
  else if dt =? "uuid" then ("pgtype.UUID{}", "pgtype.UUID")
  else let typ := SnakeToCamelIdentifier dt in (typ ++ "{}", typ).

Definition sliceDt (dt : string) : string * string :=
  if dt =? "uuid" then ("pgtype.UUIDArray{}", "pgtype.UUIDArray")
  else ("[]" ++ dt ++ "{}", "[]" ++ dt).

(** The part of [PgParseType] after the [SETOF] test. *)
Definition parseScalarOrSlice (args : ArgType) (dt : string) : Z * string * string :=
  let asSlice := HasSuffix dt "[]" in
  let dt := if asSlice then upto (String.length dt - 2) dt else dt in
  let '(dt, precision, _) := ParsePrecision args dt in
  let '(nilVal, typ) := nonSliceDt dt in
  let '(nilVal, typ) := if asSlice then sliceDt dt else (nilVal, typ) in
  (precision, nilVal, typ).

Equations? PgParseType (args : ArgType) (dt : string) (nullable : bool)
  : Z * string * string by wf (String.length dt) lt :=
  PgParseType args dt nullable with inspect (HasPrefix dt "SETOF ") => {
    | exist _ true Hpre =>
        (0, "nil", "[]" ++ snd (PgParseType args (from 6 dt) false));
    | exist _ false _ => parseScalarOrSlice args dt }.
Proof.
  unfold HasPrefix in Hpre. apply andb_prop in Hpre as [Hlen _].
  apply Nat.leb_le in Hlen.
  do 6 (destruct dt as [|? dt]; cbn in Hlen |- *; [lia|]). lia.
Qed.

End Translate.

(** ** [ParsePrecision] *)

Module Precision.

Definition is_digit (c : ascii) : bool := byte_in 48 57 c.

Definition digit_value (c : ascii) : Z := Z.of_N (N_of_ascii c) - 48.

(** Reads the longest run of decimal digits at the start of [s], most
    significant digit first, on top of the value [acc] read so far. *)
Fixpoint read_digits (acc : Z) (s : string) : Z * string :=
  match s with
  | String c r =>
      if is_digit c then read_digits (acc * 10 + digit_value c) r else (acc, s)
  | EmptyString => (acc, s)
  end.

Definition leading_integer (s : string) : option (Z * string) :=
  match s with
  | String c _ => if is_digit c then Some (read_digits 0 s) else None
  | EmptyString => None
  end.

(** [qualifier s] is [Some (p, sc)] when the whole of [s] is a
    parenthesized qualifier, [(p)] or [(p,sc)]. *)
Definition qualifier (s : string) : option (Z * Z) :=
  match s with
  | String c r =>
      if is_byte 40 c then
        match leading_integer r with
        | Some (p, rest) =>
            if rest =? ")" then Some (p, 0)
            else match rest with
                 | String c' r' =>
                     if is_byte 44 c' then
                       match leading_integer r' with
                       | Some (sc, rest') =>
                           if rest' =? ")" then Some (p, sc) else None
                       | None => None
                       end
                     else None
                 | EmptyString => None
                 end
        | None => None
        end
      else None
  | EmptyString => None
  end.

(** Modelled from the spec: [ArgType.ParsePrecision] is defined in the
    package [internal], outside this file.  The specification has it
    "extract a numeric precision/scale annotation if present in the type
    string (e.g. a parenthesized qualifier), yielding a base type name and
    an integer precision (0 if absent)": the qualifier that ends the string
    is cut off, its leading integer is the precision. *)
Fixpoint parse (dt : string) : string * Z * Z :=
  match dt with
  | EmptyString => (dt, 0, 0)
  | String c r =>
      match qualifier dt with
      | Some (p, sc) => (EmptyString, p, sc)
      | None => let '(base, p, sc) := parse r in (String c base, p, sc)
      end
  end.

Definition args : ArgType := {| ParsePrecision := parse |}.

(** A natural number written in decimal. *)
Definition decimal (n : N) : string := NilZero.string_of_uint (N.to_uint n).

(** [s] does not start with a decimal digit. *)
Definition stops (s : string) : Prop :=
  match s with
  | EmptyString => True
  | String c _ => is_digit c = false
  end.

(** No byte of [s] opens a parenthesis. *)
Fixpoint plain (s : string) : bool :=
  match s with
  | EmptyString => true
  | String c r => negb (is_byte 40 c) && plain r
  end.

End Precision.

(** ** The family table of the specification *)

(** The fixed scalar family table as the specification lists it: each native
    type name with the canonical type of its family.  The zero value of a
    family is the empty composite literal of its type. *)
Definition family_table : list (string * string) :=
  [ ("boolean", "pgtype.Bool");
    ("character", "pgtype.Text");
    ("character varying", "pgtype.Text");
    ("text", "pgtype.Text");
    ("money", "pgtype.Text");
    ("inet", "pgtype.Text");
    ("smallint", "pgtype.Int2");
    ("smallserial", "pgtype.Int2");
    ("integer", "pgtype.Int4");
    ("serial", "pgtype.Int4");
    ("bigint", "pgtype.Int8");
    ("bigserial", "pgtype.Int8");
    ("real", "pgtype.Float4");
    ("numeric", "pgtype.Float8");
    ("double precision", "pgtype.Float8");
    ("bytea", "pgtype.Bytea");
    ("jsonb", "pgtype.JSONB");
    ("date", "pgtype.Date");
    ("timestamp with time zone", "pgtype.Timestamp");
    ("time with time zone", "pgtype.Timestamp");
    ("time without time zone", "pgtype.Timestamptz");
    ("timestamp without time zone", "pgtype.Timestamptz");
    ("interval", "pgtype.Interval");
    (quoted_char, "pgtype.QChar");
    ("bit", "pgtype.Bit");
    ("uuid", "pgtype.UUID") ].

Definition zero_literal (typ : string) : string := typ ++ "{}".

(** ** [PgQueryStrip] *)

(** The search [pgQueryStripRE.FindStringIndex] for the one pattern of this
    file, [(?i)::[a-z][a-z0-9_\.]+\s+AS\s+[a-z][a-z0-9_\.]+].  Every
    repetition of the pattern is followed by a character outside its class,
    so the leftmost-first match takes the longest run at each of them.
    Under [(?i)] the letters also match the two runes that case folding
    relates to [s] and [k]: U+017F (bytes C5 BF) and U+212A (bytes E2 84 AA). *)
Module StripRE.

(** [a-z] under [(?i)], the one-byte runes. *)
Definition letter (c : ascii) : bool := byte_in 97 122 c || byte_in 65 90 c.

(** [a-z0-9_\.] under [(?i)], the one-byte runes. *)
Definition word (c : ascii) : bool :=
  letter c || byte_in 48 57 c || is_byte 95 c || is_byte 46 c.

(** [\s] is [\t\n\f\r ]. *)
Definition space (c : ascii) : bool :=
  is_byte 9 c || is_byte 10 c || is_byte 12 c || is_byte 13 c || is_byte 32 c.

(** The rest of [s] after U+017F or U+212A, when [s] starts with one. *)
Definition eat_folded (s : string) : option string :=
  match s with
  | String c1 (String c2 r2) =>
      if is_byte 197 c1 && is_byte 191 c2 then Some r2
      else match r2 with
           | String c3 r3 =>
               if is_byte 226 c1 && is_byte 132 c2 && is_byte 170 c3
               then Some r3 else None
           | EmptyString => None
           end
  | _ => None
  end.

(** One rune of [[a-z]]. *)
Definition eat_letter (s : string) : option string :=
  match s with
  | String c r => if letter c then Some r else eat_folded s
  | EmptyString => None
  end.

(** One rune of [[a-z0-9_\.]]. *)
Definition eat_word (s : string) : option string :=
  match s with
  | String c r => if word c then Some r else eat_folded s
  | EmptyString => None
  end.

(** [[a-z0-9_\.]*], the longest run. *)
Fixpoint skip_word (s : string) : string :=
  match s with
  | String c1 r1 =>
      if word c1 then skip_word r1
      else match r1 with
           | String c2 r2 =>
               if is_byte 197 c1 && is_byte 191 c2 then skip_word r2
               else match r2 with
                    | String c3 r3 =>
                        if is_byte 226 c1 && is_byte 132 c2 && is_byte 170 c3
                        then skip_word r3 else s
                    | EmptyString => s
                    end
           | EmptyString => s
           end
  | EmptyString => s
  end.

Definition eat_space (s : string) : option string :=
  match s with
  | String c r => if space c then Some r else None
  | EmptyString => None
  end.

Fixpoint skip_space (s : string) : string :=
  match s with
  | String c r => if space c then skip_space r else s
  | EmptyString => s
  end.

(** The literal [AS] under [(?i)]. *)
Definition eat_AS (s : string) : option string :=
  match s with
  | String a r =>
      if is_byte 65 a || is_byte 97 a then
        match r with
        | String c r' =>
            if is_byte 83 c || is_byte 115 c then Some r'
            else match r' with
                 | String c' r'' =>
                     if is_byte 197 c && is_byte 191 c' then Some r'' else None
                 | EmptyString => None
                 end
        | EmptyString => None
        end
      else None
  | EmptyString => None
  end.

Definition andThen {A B : Type} (o : option A) (k : A -> option B) : option B :=
  match o with Some a => k a | None => None end.

Notation "x <- o ;; k" := (andThen o (fun x => k))
  (at level 61, o at next level, right associativity).

(** A match that starts at the first byte of [s]: what follows it. *)
Definition match_here (s : string) : option string :=
  match s with
  | String c1 (String c2 r) =>
      if is_byte 58 c1 && is_byte 58 c2 then
        r <- eat_letter r ;;
        r <- eat_word r ;;
        r <- eat_space (skip_word r) ;;
        r <- eat_AS (skip_space r) ;;
        r <- eat_space r ;;
        r <- eat_letter (skip_space r) ;;
        r <- eat_word r ;;
        Some (skip_word r)
      else None
  | _ => None
  end.

(** The leftmost match in [s], whose first byte has index [i] in the line:
    the pair [pos[0], pos[1]]. *)
Fixpoint find_from (i : nat) (s : string) : option (nat * nat) :=
  match match_here s with
  | Some rest => Some (i, (i + (String.length s - String.length rest))%nat)
  | None =>
      match s with
      | String _ r => find_from (S i) r
      | EmptyString => None
      end
  end.

Definition FindStringIndex (l : string) : option (nat * nat) := find_from 0 l.

End StripRE.

(** [a[i] = x]: [None] when [i] is out of range, where Go panics. *)
Fixpoint store {A : Type} (i : nat) (x : A) (a : list A) : option (list A) :=
  match a, i with
  | [], _ => None
  | _ :: t, O => Some (x :: t)
  | h :: t, S i' =>
      match store i' x t with
      | Some t' => Some (h :: t')
      | None => None
      end
  end.

(** The loop of [PgQueryStrip] from index [i] on; [todo] holds the lines
    [query[i:]] still to be visited.  The two slices are taken not to share
    their backing array. *)
Fixpoint strip_loop (i : nat) (todo query queryComments : list string)
  : outcome (list string * list string) :=
  match todo with
  | [] => Returns (query, queryComments)
  | l :: todo' =>
      match StripRE.FindStringIndex l with
      | Some (p0, p1) =>
          match store i (upto p0 l ++ from p1 l) query with
          | None => Panics "index out of range"
          | Some query' =>
              match store (S i) (upto (p1 - p0) (from p0 l)) queryComments with
              | None => Panics "index out of range"
              | Some comments' => strip_loop (S i) todo' query' comments'
              end
          end
      | None =>
          match store (S i) "" queryComments with
          | None => Panics "index out of range"
          | Some comments' => strip_loop (S i) todo' query comments'
          end
      end
  end.

Definition PgQueryStrip (query queryComments : list string)
  : outcome (list string * list string) :=
  strip_loop 0 query query queryComments.

(** ** Rows of the catalog query layer (package [models]) *)

Module models.

(** [models.Table], with the three fields the loader fills. *)
Record Table : Type := {
  TableName : string;
  Type_ : string;
  ManualPk : bool
}.

(** [models.Sequence]; its field is [TableName] in Go. *)
Record Sequence : Type := {
  SequenceTableName : string
}.

(** Modelled from the spec: [models.IndexColumn] is declared outside this
    file; the loader reads [Cid], and the specification gives a column its
    identifier and its name. *)
Record IndexColumn : Type := {
  Cid : Z;
  ColumnName : string
}.

(** [models.PgColOrder], with the field the loader reads. *)
Record PgColOrder : Type := {
  Ord : string
}.

End models.
Import models.

(** ** [strconv.Atoi], [strings.Split], [strings.Fields] *)

Module Strconv.

Import Precision.

Fixpoint all_digits (s : string) : bool :=
  match s with
  | EmptyString => true
  | String c r => is_digit c && all_digits r
  end.

(** The digits of [s] after an optional sign, and whether the sign is [-]. *)
Definition sign_split (s : string) : bool * string :=
  match s with
  | String c r =>
      if is_byte 45 c then (true, r)
      else if is_byte 43 c then (false, r)
      else (false, s)
  | EmptyString => (false, s)
  end.

(** [strconv.Atoi] with a 64-bit [int]: [None] stands for a syntax or a
    range error. *)
Definition Atoi (s : string) : option Z :=
  let '(neg, body) := sign_split s in
  match body with
  | EmptyString => None
  | _ =>
      if all_digits body then
        let n := fst (read_digits 0 body) in
        let z := if neg then - n else n in
        if ((- 2 ^ 63 <=? z) && (z <=? 2 ^ 63 - 1))%Z then Some z else None
      else None
  end.

(** [%d] of [fmt]. *)
Definition Itoa (z : Z) : string := NilZero.string_of_int (Z.to_int z).

End Strconv.

(** ** Errors and statements the loaders build *)

(** The two errors of the loop, for the schema prefix [s]. *)
Definition convert_error (s table index v : string) : error :=
  Errorf ("could not convert " ++ s ++ table ++ " index " ++ index
          ++ " column " ++ v ++ " to int").

Definition find_error (s table index : string) (cid : Z) : error :=
  Errorf ("could not find " ++ s ++ table ++ " index " ++ index
          ++ " column id " ++ Strconv.Itoa cid).


Module Strings.

(** The pieces of [s] between the bytes that satisfy [sep]; one more piece
    than there are such bytes. *)
Fixpoint pieces (sep : ascii -> bool) (s : string) : list string :=
  match s with
  | EmptyString => [EmptyString]
  | String c r =>
      if sep c then EmptyString :: pieces sep r
      else match pieces sep r with
           | h :: t => String c h :: t
           | [] => [String c EmptyString]
           end
  end.

(** [strings.Split(s, " ")]. *)
Definition Split_space (s : string) : list string :=
  pieces (is_byte 32) s.




(** [strings.Join]. *)
Definition Join (elems : list string) (sep : string) : string :=
  String.concat sep elems.



End Strings.

Definition newline : string := String "010" EmptyString.

(** The name of the transient relation and the statement that defines it. *)
Definition xoid_of (randomID : string) : string := "_xo_" ++ randomID.

Definition viewq_of (randomID : string) (inspect : list string) : string :=
  "CREATE TEMPORARY VIEW " ++ xoid_of randomID ++ " AS ("
  ++ Strings.Join inspect newline ++ ")".

(** ** The loaders that query the catalog *)

Section Loaders.

(** The database handle [models.XODB], seen as the state of the session. *)
Variable XODB : Type.

(** [models.Column]. *)
Variable Column : Type.

(** The catalog query layer, package [models]. *)
Variable models_PgTables : XODB -> string -> string -> result (list Table).
Variable models_PgSequences : XODB -> string -> result (list Sequence).
Variable models_PgTableColumns :
  XODB -> string -> string -> bool -> result (list Column).
Variable models_PgIndexColumns : XODB -> string -> string -> result (list IndexColumn).
Variable models_PgGetColOrder : XODB -> string -> string -> result PgColOrder.

(** [db.Exec(query)]: the outcome and the session after the statement. *)
Variable Exec : XODB -> string -> result unit * XODB.

(** [db.QueryRow(query, arg)] of a query that selects one column: the
    driver's error, or that column of the rows selected. *)
Variable QueryRow : XODB -> string -> string -> result (list string).

(** [Row.Scan] of [database/sql] into one string: the deferred error of the query,
    [sql.ErrNoRows] when no row is selected, and otherwise the first row,
    the rest being discarded. *)
Definition Scan (row : result (list string)) : result string :=
  match row with
  | Fail e => Fail e
  | Ok [] => Fail ErrNoRows
  | Ok (v :: _) => Ok v
  end.

(** *** [PgTables] *)

(** The sequences the loop of [PgTables] runs over. *)
Definition sequences_used (db : XODB) (schema : string) : list Sequence :=
  match models_PgSequences db schema with
  | Ok sequences => sequences
  | Fail _ => []
  end.

(** The inner loop over the sequences. *)
Definition manualPk_of (sequences : list Sequence) (row : Table) : bool :=
  fold_left
    (fun manualPk sequence =>
       if SequenceTableName sequence =? TableName row then false else manualPk)
    sequences true.

Definition PgTables (db : XODB) (schema relkind : string) : result (list Table) :=
  match models_PgTables db schema relkind with
  | Fail err => Fail err
  | Ok rows =>
      let sequences := sequences_used db schema in
      Ok (fold_left
            (fun tables row =>
               (tables ++ [ {| TableName := TableName row;
                               Type_ := Type_ row;
                               ManualPk := manualPk_of sequences row |} ])%list)
            rows [])
  end.

(** *** [PgQueryColumns] *)

Definition nspq : string :=
  "SELECT n.nspname " ++
  "FROM pg_class c " ++
  "JOIN pg_namespace n ON n.oid = c.relnamespace " ++
  "WHERE n.nspname LIKE 'pg_temp%' AND c.relname = $1".

(** [randomID] is what [internal.GenRandomID()] returns in this call.  The
    calls of [models.XOLog] write to the logging sink only and are left
    out.  The session is returned with the result. *)
Definition PgQueryColumns (db : XODB) (randomID : string) (inspect : list string)
  : result (list Column) * XODB :=
  let xoid := xoid_of randomID in
  let viewq := viewq_of randomID inspect in
  match Exec db viewq with
  | (Fail err, db) => (Fail err, db)
  | (Ok _, db) =>
      match Scan (QueryRow db nspq xoid) with
      | Fail err => (Fail err, db)
      | Ok schema => (models_PgTableColumns db schema xoid false, db)
      end
  end.

(** *** [PgIndexColumns] *)

(** The scan of [cols] for the first column with identifier [cid]. *)
Fixpoint find_column (cid : Z) (cols : list IndexColumn) : option IndexColumn :=
  match cols with
  | [] => None
  | ic :: cols' => if Z.eqb cid (Cid ic) then Some ic else find_column cid cols'
  end.

(** The token [v] is converted and its column is found. *)
Definition resolves (cols : list IndexColumn) (v : string) : Prop :=
  exists cid c, Strconv.Atoi v = Some cid /\ find_column cid cols = Some c.

(** The loop over the tokens of the ordinal string; [s] is the schema
    prefix used in errors. *)
Fixpoint order_loop (s table index : string) (cols : list IndexColumn)
         (tokens : list string) (ret : list IndexColumn)
  : result (list IndexColumn) :=
  match tokens with
  | [] => Ok ret
  | v :: tokens' =>
      match Strconv.Atoi v with
      | None =>
          Fail (convert_error s table index v)
      | Some cid =>
          match find_column cid cols with
          | None =>
              Fail (find_error s table index cid)
          | Some c => order_loop s table index cols tokens' (ret ++ [c])%list
          end
      end
  end.

(** The schema name used in errors: [s := schema; if s != "" { s = s + "." }]. *)
Definition schema_prefix (schema : string) : string :=
  if schema =? "" then schema else schema ++ ".".

Definition PgIndexColumns (db : XODB) (schema table index : string)
  : result (list IndexColumn) :=
  match models_PgIndexColumns db schema index with
  | Fail err => Fail err
  | Ok cols =>
      match models_PgGetColOrder db schema index with
      | Fail err => Fail err
      | Ok colOrd =>
          let s := schema_prefix schema in
          order_loop s table index cols (Strings.Split_space (Ord colOrd)) []
      end
  end.

End Loaders.

(** ** Databases of the examples *)

Module TablesExample.

Definition orders : Table :=
  {| TableName := "orders"; Type_ := "r"; ManualPk := false |}.
Definition order_items : Table :=
  {| TableName := "order_items"; Type_ := "r"; ManualPk := false |}.

(** A schema with the relations [orders] and [order_items] and one sequence,
    which belongs to [order_items]. *)
Definition fetch_tables (db : unit) (schema relkind : string) : result (list Table) :=
  Ok [orders; order_items].
Definition fetch_sequences (db : unit) (schema : string) : result (list Sequence) :=
  Ok [ {| SequenceTableName := "order_items" |} ].

End TablesExample.

Module QueryColumnsExample.

(** Sessions in which the view statement always succeeds. *)
Definition exec_ok (db : unit) (q : string) : result unit * unit := (Ok tt, db).

(** A session in which the view statement fails. *)
Definition exec_fails (db : unit) (q : string) : result unit * unit :=
  (Fail (DriverError "connection reset"), db).

(** The namespace query selects two rows. *)
Definition two_namespaces (db : unit) (q arg : string) : result (list string) :=
  Ok ["pg_temp_3"; "pg_temp_4"].

Definition one_namespace (db : unit) (q arg : string) : result (list string) :=
  Ok ["pg_temp_3"].

(** The column listing answers with the schema and the relation it was asked
    about. *)
Definition columns_ok (db : unit) (schema table : string) (oids : bool)
  : result (list string) :=
  Ok [schema; table].

Definition columns_fail (db : unit) (schema table : string) (oids : bool)
  : result (list string) :=
  Fail (DriverError "connection reset").

End QueryColumnsExample.

Module IndexExample.

Definition col_a : IndexColumn := {| Cid := 1; ColumnName := "a" |}.
Definition col_b : IndexColumn := {| Cid := 2; ColumnName := "b" |}.
Definition col_c : IndexColumn := {| Cid := 3; ColumnName := "c" |}.

(** The unordered fetch of the three columns. *)
Definition fetch_cols (db : unit) (schema index : string)
  : result (list IndexColumn) :=
  Ok [col_a; col_b; col_c].

(** The fetch of an ordinal string. *)
Definition fetch_ord (ord : string) (db : unit) (schema index : string)
  : result PgColOrder :=
  Ok {| Ord := ord |}.

End IndexExample.

(** ** Vocabulary of the further properties *)

(** [dt] behind [n] markers [SETOF ]. *)
Fixpoint setof (n : nat) (dt : string) : string :=
  match n with
  | O => dt
  | S n' => "SETOF " ++ setof n' dt
  end.

(** The slice type of depth [n] over the type [typ]. *)
Fixpoint slices (n : nat) (typ : string) : string :=
  match n with
  | O => typ
  | S n' => "[]" ++ slices n' typ
  end.

(** What one pass of [PgQueryStrip] makes of the line [l]: the line it
    stores and the comment it records. *)
Definition strip_line (l : string) : string * string :=
  match StripRE.FindStringIndex l with
  | Some (p0, p1) => (upto p0 l ++ from p1 l, upto (p1 - p0) (from p0 l))
  | None => (l, EmptyString)
  end.

(** No two consecutive bytes of [s] are both colons. *)
Fixpoint no_double_colon (s : string) : bool :=
  match s with
  | EmptyString => true
  | String c1 r =>
      match r with
      | String c2 _ => negb (is_byte 58 c1 && is_byte 58 c2)
      | EmptyString => true
      end && no_double_colon r
  end.

(** The column the scan of [cols] returns for [cid], or a blank column. *)
Definition pick (cols : list IndexColumn) (cid : Z) : IndexColumn :=
  match find_column cid cols with
  | Some c => c
  | None => {| Cid := 0; ColumnName := EmptyString |}
  end.









(** * Properties *)

(** ** The type translator *)

Section TranslateFacts.

Variable SnakeToCamelIdentifier : string -> string.
Variable args : ArgType.

(** One step of [PgParseType], as the function body reads. *)
Lemma PgParseType_step (dt : string) (nullable : bool) :
  PgParseType SnakeToCamelIdentifier args dt nullable =
  if HasPrefix dt "SETOF "
  then (0, "nil",
        "[]" ++ snd (PgParseType SnakeToCamelIdentifier args (from 6 dt) false))
  else parseScalarOrSlice SnakeToCamelIdentifier args dt.
Proof.
  rewrite PgParseType_equation_1.
  destruct (inspect (HasPrefix dt "SETOF ")) as [[|] Hb];
    simpl; rewrite Hb; reflexivity.
Qed.

(** C3: a type string that begins with the marker [SETOF ] translates to
    precision 0, zero value [nil] and the slice of the type name that the
    rest of the string translates to with [nullable] false, whatever the
    nullability flag of the call. *)
Theorem PgParseType_SETOF (rest : string) (nullable : bool) :
  PgParseType SnakeToCamelIdentifier args ("SETOF " ++ rest) nullable =
  (0, "nil", "[]" ++ snd (PgParseType SnakeToCamelIdentifier args rest false)).
Proof.
  rewrite PgParseType_step. reflexivity.
Qed.

(** C10: the result of [PgParseType] does not depend on [nullable]. *)
Theorem PgParseType_nullable_irrelevant (dt : string) (b1 b2 : bool) :
  PgParseType SnakeToCamelIdentifier args dt b1 =
  PgParseType SnakeToCamelIdentifier args dt b2.
Proof.
  rewrite (PgParseType_step dt b1), (PgParseType_step dt b2). reflexivity.
Qed.

End TranslateFacts.

(** *** Decimal numerals and qualifiers *)

Module PrecisionFacts.

Import Precision.

Lemma read_digits_stop (acc : Z) (s : string) :
  stops s -> read_digits acc s = (acc, s).
Proof.
  destruct s as [|c r]; simpl; intros H; [reflexivity | now rewrite H].
Qed.

Lemma read_digits_acc (d : Decimal.uint) :
  forall (acc : positive) (rest : string),
    stops rest ->
    read_digits (Z.pos acc) (NilEmpty.string_of_uint d ++ rest) =
    (Z.pos (Pos.of_uint_acc d acc), rest).
Proof.
  induction d as [|d IH|d IH|d IH|d IH|d IH|d IH|d IH|d IH|d IH|d IH];
    intros acc rest Hrest;
    [ now apply read_digits_stop | .. ];
    cbn [NilEmpty.string_of_uint String.append read_digits Pos.of_uint_acc];
    change (is_digit _) with true; cbn iota;
    rewrite <- (IH _ rest Hrest); f_equal;
    unfold digit_value; cbn [N_of_ascii N_of_digits Z.of_N]; lia.
Qed.

Lemma read_digits_of_uint (d : Decimal.uint) :
  forall rest : string,
    stops rest ->
    read_digits 0 (NilEmpty.string_of_uint d ++ rest) =
    (Z.of_N (Pos.of_uint d), rest).
Proof.
  induction d as [|d IH|d IH|d IH|d IH|d IH|d IH|d IH|d IH|d IH|d IH];
    intros rest Hrest;
    [ now apply read_digits_stop
    | cbn [NilEmpty.string_of_uint String.append read_digits Pos.of_uint];
      change (is_digit _) with true; cbn iota;
      change (0 * 10 + digit_value _) with 0; now apply IH
    | cbn [NilEmpty.string_of_uint String.append read_digits Pos.of_uint Z.of_N];
      change (is_digit _) with true; cbn iota;
      rewrite <- (read_digits_acc d _ rest Hrest); reflexivity .. ].
Qed.

Lemma decimal_starts_with_digit (n : N) (rest : string) :
  exists c r, decimal n ++ rest = String c r /\ is_digit c = true.
Proof.
  unfold decimal. destruct (N.to_uint n) eqn:E; cbn;
    eauto using eq_refl.
Qed.

Lemma leading_integer_decimal (n : N) (rest : string) :
  stops rest -> leading_integer (decimal n ++ rest) = Some (Z.of_N n, rest).
Proof.
  intros Hrest.
  destruct (decimal_starts_with_digit n rest) as (c & r & E & Hc).
  unfold leading_integer. rewrite E, Hc, <- E. f_equal.
  unfold decimal.
  replace (NilZero.string_of_uint (N.to_uint n))
    with (NilEmpty.string_of_uint (N.to_uint n)).
  - rewrite read_digits_of_uint by assumption.
    change (Pos.of_uint (N.to_uint n)) with (N.of_uint (N.to_uint n)).
    now rewrite DecimalN.Unsigned.of_to.
  - destruct (N.to_uint n) eqn:En; try reflexivity.
    destruct n as [|p]; [discriminate|].
    exfalso. revert En. apply DecimalPos.Unsigned.to_uint_nonnil.
Qed.

(** [(n)] is a qualifier with leading integer [n]. *)
Lemma qualifier_precision (n : N) :
  qualifier ("(" ++ decimal n ++ ")") = Some (Z.of_N n, 0).
Proof.
  cbn [String.append qualifier]. change (is_byte 40 "(") with true. cbn iota.
  rewrite leading_integer_decimal by reflexivity. reflexivity.
Qed.

(** [(n,m)] is a qualifier with leading integer [n]. *)
Lemma qualifier_precision_scale (n m : N) :
  qualifier ("(" ++ decimal n ++ "," ++ decimal m ++ ")") = Some (Z.of_N n, Z.of_N m).
Proof.
  cbn [String.append qualifier]. change (is_byte 40 "(") with true. cbn iota.
  rewrite leading_integer_decimal by reflexivity.
  destruct (decimal_starts_with_digit m ")") as (c & r & E & Hc).
  change ("," ++ decimal m ++ ")") with (String "," (decimal m ++ ")")).
  change (String "," (decimal m ++ ")") =? ")") with false.
  cbn iota. change (is_byte 44 ",") with true. cbn iota.
  rewrite leading_integer_decimal by reflexivity. reflexivity.
Qed.

Lemma qualifier_plain_head (c : ascii) (r : string) :
  is_byte 40 c = false -> qualifier (String c r) = None.
Proof. intros H. cbn [qualifier]. now rewrite H. Qed.

Lemma parse_plain (base : string) :
  plain base = true -> parse base = (base, 0, 0).
Proof.
  induction base as [|c r IH]; intros H; [reflexivity|].
  cbn [plain] in H. apply andb_prop in H as [Hc Hr].
  apply negb_true_iff in Hc.
  cbn [parse]. rewrite (qualifier_plain_head c r Hc), (IH Hr). reflexivity.
Qed.

Lemma parse_plain_qualified (base q : string) (p sc : Z) :
  plain base = true -> qualifier q = Some (p, sc) ->
  parse (base ++ q) = (base, p, sc).
Proof.
  intros Hb Hq. induction base as [|c r IH].
  - destruct q as [|c r]; [discriminate|].
    cbn [String.append parse]. now rewrite Hq.
  - cbn [plain] in Hb. apply andb_prop in Hb as [Hc Hr].
    apply negb_true_iff in Hc.
    cbn [String.append parse].
    rewrite (qualifier_plain_head c _ Hc), (IH Hr). reflexivity.
Qed.

End PrecisionFacts.

(** *** Prefixes and suffixes *)

Module GoStringFacts.

Lemma last_byte_app (a : string) (c : ascii) (r : string) :
  last_byte (a ++ String c r) = last_byte (String c r).
Proof.
  induction a as [|x a IH]; [reflexivity|].
  cbn [String.append]. rewrite <- IH.
  cbn [last_byte]. destruct (a ++ String c r) eqn:E; [|reflexivity].
  destruct a; discriminate.
Qed.

Lemma last_byte_from (n : nat) (s : string) :
  from n s <> EmptyString -> last_byte s = last_byte (from n s).
Proof.
  revert s. induction n as [|n IH]; intros s H; [reflexivity|].
  destruct s as [|c r]; [reflexivity|].
  cbn [from] in *. rewrite <- (IH r H).
  cbn [last_byte]. destruct r; [|reflexivity].
  destruct n; now elim H.
Qed.

(** A string with the suffix [[]] ends with the byte [']']. *)
Lemma HasSuffix_brackets_last (s : string) :
  HasSuffix s "[]" = true -> last_byte s = Some "]"%char.
Proof.
  unfold HasSuffix. intros H. apply andb_prop in H as [_ H].
  apply String.eqb_eq in H.
  rewrite (last_byte_from (String.length s - String.length "[]") s);
    rewrite H; [reflexivity | discriminate].
Qed.

(** A string whose first byte is not ['S'] does not start with [SETOF ]. *)
Lemma HasPrefix_SETOF_head (c : ascii) (r : string) :
  is_byte 83 c = false -> HasPrefix (String c r) "SETOF " = false.
Proof.
  intros H. unfold HasPrefix. apply andb_false_iff. right.
  cbn [String.length upto String.eqb].
  replace (Ascii.eqb c "S") with false; [reflexivity|].
  symmetry. apply Ascii.eqb_neq. intros ->. discriminate.
Qed.

End GoStringFacts.

(** *** The family table *)

Section FamilyTable.

Import Precision PrecisionFacts GoStringFacts.

Variable SnakeToCamelIdentifier : string -> string.

(** What the proofs below need of an entry of the table. *)
Lemma family_table_entry (native canon : string) :
  In (native, canon) family_table ->
  plain native = true
  /\ HasSuffix native "[]" = false
  /\ (exists c r, native = String c r /\ is_byte 83 c = false)
  /\ nonSliceDt SnakeToCamelIdentifier native = (zero_literal canon, canon).
Proof.
  intros H. cbn [In family_table] in H.
  repeat (destruct H as [H|H];
          [ injection H as <- <-;
            repeat split; try reflexivity;
            eexists _, _; split; reflexivity | ]).
  contradiction.
Qed.

Lemma read_digits_last (s : string) :
  forall acc : Z,
    snd (read_digits acc s) <> EmptyString ->
    last_byte s = last_byte (snd (read_digits acc s)).
Proof.
  induction s as [|c r IH]; intros acc H; [now elim H|].
  cbn [read_digits] in *. destruct (is_digit c); [|reflexivity].
  rewrite <- (IH _ H). cbn [last_byte].
  destruct r; [now elim H | reflexivity].
Qed.

Lemma leading_integer_last (s rest : string) (p : Z) :
  leading_integer s = Some (p, rest) -> rest <> EmptyString ->
  last_byte s = last_byte rest.
Proof.
  unfold leading_integer. destruct s as [|c r]; [discriminate|].
  destruct (is_digit c); [|discriminate].
  intros Hp Hne. injection Hp as Hp.
  apply (f_equal snd) in Hp. cbn [snd] in Hp.
  rewrite <- Hp in Hne |- *. exact (read_digits_last (String c r) 0 Hne).
Qed.

(** A qualifier ends with the closing parenthesis. *)
Lemma qualifier_last (q : string) (x : Z * Z) :
  qualifier q = Some x -> last_byte q = Some ")"%char.
Proof.
  destruct q as [|c r]; [discriminate|]. cbn [qualifier].
  destruct (is_byte 40 c); [|discriminate].
  destruct (leading_integer r) as [[p rest]|] eqn:E1; [|discriminate].
  assert (Hr : rest <> EmptyString -> last_byte (String c r) = last_byte rest).
  { intros Hne. rewrite <- (leading_integer_last _ _ _ E1 Hne).
    cbn [last_byte]. destruct r; [discriminate | reflexivity]. }
  destruct (rest =? ")") eqn:E2.
  - apply String.eqb_eq in E2. subst rest. intros _. now rewrite Hr.
  - destruct rest as [|c' r']; [discriminate|].
    rewrite Hr by discriminate.
    destruct (is_byte 44 c'); [|discriminate].
    destruct (leading_integer r') as [[sc rest']|] eqn:E3; [|discriminate].
    destruct (rest' =? ")") eqn:E4; [|discriminate].
    apply String.eqb_eq in E4. subst rest'. intros _.
    cbn [last_byte]. destruct r' as [|c'' r'']; [discriminate|].
    now rewrite (leading_integer_last _ _ _ E3).
Qed.

(** A name of the table alone: no precision. *)
Lemma translate_family_plain (native canon : string) (nullable : bool) :
  In (native, canon) family_table ->
  PgParseType SnakeToCamelIdentifier Precision.args native nullable =
  (0, zero_literal canon, canon).
Proof.
  intros H.
  destruct (family_table_entry _ _ H) as (Hplain & Hsuf & (c & r & -> & Hc) & Hdt).
  rewrite PgParseType_step, (HasPrefix_SETOF_head c r Hc).
  unfold parseScalarOrSlice. rewrite Hsuf.
  cbn [ParsePrecision Precision.args]. rewrite (parse_plain _ Hplain), Hdt.
  reflexivity.
Qed.

(** A name of the table followed by a qualifier: the precision is the
    leading integer of the qualifier. *)
Lemma translate_family_qualified (native canon q : string) (p sc : Z)
      (nullable : bool) :
  In (native, canon) family_table ->
  qualifier q = Some (p, sc) ->
  PgParseType SnakeToCamelIdentifier Precision.args (native ++ q) nullable =
  (p, zero_literal canon, canon).
Proof.
  intros H Hq.
  destruct (family_table_entry _ _ H) as (Hplain & _ & (c & r & -> & Hc) & Hdt).
  assert (Hsuf : HasSuffix (String c r ++ q) "[]" = false).
  { destruct (HasSuffix (String c r ++ q) "[]") eqn:E; [|reflexivity].
    apply HasSuffix_brackets_last in E.
    destruct q as [|c' r']; [discriminate|].
    rewrite last_byte_app, (qualifier_last _ _ Hq) in E. discriminate. }
  rewrite PgParseType_step.
  change (String c r ++ q) with (String c (r ++ q)) at 1.
  rewrite (HasPrefix_SETOF_head c _ Hc).
  unfold parseScalarOrSlice. rewrite Hsuf.
  cbn [ParsePrecision Precision.args].
  rewrite (parse_plain_qualified _ _ _ _ Hplain Hq), Hdt.
  reflexivity.
Qed.

(** C2: for every native type name of the fixed family table,
    [PgParseType] returns the canonical zero value and type name of the
    family, with precision 0 for the bare name and, for the name followed by
    a parenthesized qualifier [(n)] or [(n,m)], with the precision [n], the
    leading integer of the qualifier; ["character varying"] gives precision 0
    and the text family, ["numeric(10,2)"] precision 10 and the float
    family. *)
Theorem translate_family_table (native canon : string) (nullable : bool) :
  In (native, canon) family_table ->
  PgParseType SnakeToCamelIdentifier Precision.args native nullable =
    (0, zero_literal canon, canon)
  /\ (forall n : N,
        PgParseType SnakeToCamelIdentifier Precision.args
          (native ++ "(" ++ decimal n ++ ")") nullable =
        (Z.of_N n, zero_literal canon, canon))
  /\ (forall n m : N,
        PgParseType SnakeToCamelIdentifier Precision.args
          (native ++ "(" ++ decimal n ++ "," ++ decimal m ++ ")") nullable =
        (Z.of_N n, zero_literal canon, canon))
  /\ PgParseType SnakeToCamelIdentifier Precision.args "character varying" false =
       (0, "pgtype.Text{}", "pgtype.Text")
  /\ PgParseType SnakeToCamelIdentifier Precision.args "numeric(10,2)" true =
       (10, "pgtype.Float8{}", "pgtype.Float8").
Proof.
  intros H. split; [|split; [|split; [|split]]].
  - now apply translate_family_plain.
  - intros n.
    exact (translate_family_qualified _ _ _ _ _ nullable H (qualifier_precision n)).
  - intros n m.
    exact (translate_family_qualified _ _ _ _ _ nullable H
             (qualifier_precision_scale n m)).
  - rewrite PgParseType_step. reflexivity.
  - rewrite PgParseType_step. reflexivity.
Qed.

(** The zero value and the type name of a name that is neither a set nor an
    array and from which [ParsePrecision] cuts nothing. *)
Lemma translate_unqualified (args : ArgType) (dt : string) (nullable : bool) :
  HasPrefix dt "SETOF " = false ->
  HasSuffix dt "[]" = false ->
  fst (fst (ParsePrecision args dt)) = dt ->
  (snd (fst (PgParseType SnakeToCamelIdentifier args dt nullable)),
   snd (PgParseType SnakeToCamelIdentifier args dt nullable))
  = nonSliceDt SnakeToCamelIdentifier dt.
Proof.
  intros Hpre Hsuf Hcut. rewrite PgParseType_step, Hpre.
  unfold parseScalarOrSlice. rewrite Hsuf.
  destruct (ParsePrecision args dt) as [[dt' p] sc]. cbn [fst] in Hcut. subst dt'.
  destruct (nonSliceDt SnakeToCamelIdentifier dt). reflexivity.
Qed.

(** C5: the names with time zone translate to [pgtype.Timestamp] and the names
    without time zone to [pgtype.Timestamptz], for every [ParsePrecision] that
    returns a name without parenthesis as it is. *)
Theorem translate_time_zone_crossed (args : ArgType) (nullable : bool) :
  (forall dt, plain dt = true -> fst (fst (ParsePrecision args dt)) = dt) ->
  let zero_and_type dt :=
    (snd (fst (PgParseType SnakeToCamelIdentifier args dt nullable)),
     snd (PgParseType SnakeToCamelIdentifier args dt nullable)) in
  zero_and_type "timestamp with time zone" = ("pgtype.Timestamp{}", "pgtype.Timestamp")
  /\ zero_and_type "time with time zone" = ("pgtype.Timestamp{}", "pgtype.Timestamp")
  /\ zero_and_type "timestamp without time zone"
     = ("pgtype.Timestamptz{}", "pgtype.Timestamptz")
  /\ zero_and_type "time without time zone"
     = ("pgtype.Timestamptz{}", "pgtype.Timestamptz").
Proof.
  intros Hcut. cbv zeta.
  split; [|split; [|split]];
    rewrite translate_unqualified by (try reflexivity; now apply Hcut);
    reflexivity.
Qed.

(** C4, at the array of integers: [PgParseType] returns the slice of the
    native name, ["[]integer"], although the base type translates to
    [pgtype.Int4]; the array of [uuid] has its own type, and the array of a
    qualified type keeps the precision. *)
Theorem translate_array_of_native_name (nullable : bool) :
  PgParseType SnakeToCamelIdentifier Precision.args "integer[]" nullable =
    (0, "[]integer{}", "[]integer")
  /\ PgParseType SnakeToCamelIdentifier Precision.args "integer" nullable =
     (0, "pgtype.Int4{}", "pgtype.Int4")
  /\ PgParseType SnakeToCamelIdentifier Precision.args "uuid[]" nullable =
     (0, "pgtype.UUIDArray{}", "pgtype.UUIDArray")
  /\ PgParseType SnakeToCamelIdentifier Precision.args "numeric(10,2)[]" nullable =
     (10, "[]numeric{}", "[]numeric").
Proof.
  split; [|split; [|split]]; rewrite PgParseType_step; reflexivity.
Qed.

End FamilyTable.

Lemma translate_time_zone_crossed_witness :
  (forall dt, Precision.plain dt = true ->
              fst (fst (ParsePrecision Precision.args dt)) = dt)
  /\ (snd (fst (PgParseType (fun s => s) Precision.args
                  "timestamp with time zone" true)),
      snd (PgParseType (fun s => s) Precision.args "timestamp with time zone" true))
     = ("pgtype.Timestamp{}", "pgtype.Timestamp")
  /\ (snd (fst (PgParseType (fun s => s) Precision.args
                  "time without time zone" true)),
      snd (PgParseType (fun s => s) Precision.args "time without time zone" true))
     = ("pgtype.Timestamptz{}", "pgtype.Timestamptz").
Proof.
  assert (H : forall dt, Precision.plain dt = true ->
                         fst (fst (ParsePrecision Precision.args dt)) = dt).
  { intros dt Hdt. cbn [ParsePrecision Precision.args].
    now rewrite (PrecisionFacts.parse_plain dt Hdt). }
  destruct (translate_time_zone_crossed (fun s => s) Precision.args true H)
    as (H1 & _ & _ & H4).
  split; [exact H | split; [exact H1 | exact H4]].
Defined.

Lemma translate_family_table_witness :
  In ("numeric", "pgtype.Float8") family_table
  /\ PgParseType (fun s => s) Precision.args "numeric(7)" true =
     (7, "pgtype.Float8{}", "pgtype.Float8").
Proof.
  assert (H : In ("numeric", "pgtype.Float8") family_table)
    by (simpl; repeat (first [left; reflexivity | right])).
  split; [exact H|].
  exact (proj1 (proj2 (translate_family_table (fun s => s) _ _ true H)) 7%N).
Defined.

(** ** The relation kinds *)

Section RelkindFacts.

Variables Table View : RelType.

(** The two constants label two cases of one [switch]: they are distinct. *)
Hypothesis Table_View_distinct : Table <> View.

(** C9: [PgRelkind] returns ["r"] for [Table] and ["v"] for [View], so it
    returns on the declared domain, and it panics on every other value. *)
Theorem PgRelkind_total :
  PgRelkind Table View Table = Returns "r"
  /\ PgRelkind Table View View = Returns "v"
  /\ (forall relType : RelType,
        relType = Table \/ relType = View ->
        exists s, PgRelkind Table View relType = Returns s)
  /\ (forall relType : RelType,
        relType <> Table -> relType <> View ->
        PgRelkind Table View relType = Panics "unsupported RelType").
Proof.
  assert (HT : PgRelkind Table View Table = Returns "r")
    by (unfold PgRelkind; now rewrite N.eqb_refl).
  assert (HV : PgRelkind Table View View = Returns "v").
  { unfold PgRelkind. rewrite N.eqb_refl.
    destruct (N.eqb_spec View Table) as [E|_]; [|reflexivity].
    now elim Table_View_distinct. }
  repeat split; try assumption.
  - intros relType [-> | ->]; eauto.
  - intros relType HnT HnV. unfold PgRelkind.
    destruct (N.eqb_spec relType Table); [contradiction|].
    destruct (N.eqb_spec relType View); [contradiction|]. reflexivity.
Qed.

End RelkindFacts.

Lemma PgRelkind_total_witness :
  0%N <> 1%N
  /\ PgRelkind 0%N 1%N 0%N = Returns "r"
  /\ PgRelkind 0%N 1%N 1%N = Returns "v"
  /\ PgRelkind 0%N 1%N 2%N = Panics "unsupported RelType".
Proof.
  assert (H : 0%N <> 1%N) by discriminate.
  destruct (PgRelkind_total 0%N 1%N H) as (HT & HV & _ & HP).
  split; [exact H | split; [exact HT | split; [exact HV |]]].
  apply HP; discriminate.
Defined.

(** ** The table enumerator *)

Section TablesFacts.

Variable XODB : Type.
Variable models_PgTables : XODB -> string -> string -> result (list Table).
Variable models_PgSequences : XODB -> string -> result (list Sequence).

Lemma manualPk_loop (row : Table) (sequences : list Sequence) :
  forall manualPk : bool,
    fold_left
      (fun manualPk sequence =>
         if SequenceTableName sequence =? TableName row then false else manualPk)
      sequences manualPk
    = manualPk
      && negb (existsb (fun sq => SequenceTableName sq =? TableName row) sequences).
Proof.
  induction sequences as [|sq l IH]; intros manualPk; cbn [fold_left existsb].
  - now rewrite andb_true_r.
  - rewrite IH. destruct (SequenceTableName sq =? TableName row); cbn.
    + now rewrite andb_false_r.
    + reflexivity.
Qed.

Lemma manualPk_of_false (sequences : list Sequence) (row : Table) :
  manualPk_of sequences row = false <->
  exists sq, In sq sequences /\ SequenceTableName sq = TableName row.
Proof.
  unfold manualPk_of. rewrite manualPk_loop. cbn [andb].
  rewrite negb_false_iff, existsb_exists.
  split; intros (sq & Hin & H); exists sq; split; try assumption;
    now apply String.eqb_eq.
Qed.

Lemma append_loop {A B : Type} (g : A -> B) (rows : list A) :
  forall acc : list B,
    fold_left (fun tables row => (tables ++ [g row])%list) rows acc
    = (acc ++ map g rows)%list.
Proof.
  induction rows as [|r l IH]; intros acc; cbn [fold_left map].
  - now rewrite app_nil_r.
  - rewrite IH, <- app_assoc. reflexivity.
Qed.


End TablesFacts.


(** ** The query shape discoverer *)

Section QueryColumnsFacts.

Variable XODB : Type.
Variable Column : Type.
Variable models_PgTableColumns : XODB -> string -> string -> bool -> result (list Column).
Variable Exec : XODB -> string -> result unit * XODB.
Variable QueryRow : XODB -> string -> string -> result (list string).

(** C7, as the code has it: [PgQueryColumns] fails exactly when the view
    statement fails, or the namespace query fails or selects no row, or the
    column listing fails, and its error is then the error of that step itself,
    unchanged ([sql.ErrNoRows] when no row is selected); it succeeds exactly
    when the statement succeeds, the namespace query selects at least one
    row and the column listing for the schema of the first row and the
    generated name succeeds, and it returns that listing. *)
Theorem PgQueryColumns_steps (db : XODB) (randomID : string) (inspect : list string) :
  let xoid := xoid_of randomID in
  let step1 := Exec db (viewq_of randomID inspect) in
  let db' := snd step1 in
  let call := fst (PgQueryColumns XODB Column models_PgTableColumns Exec QueryRow
                     db randomID inspect) in
  (forall err : error,
      call = Fail err <->
      fst step1 = Fail err
      \/ ((exists u, fst step1 = Ok u) /\ QueryRow db' nspq xoid = Fail err)
      \/ ((exists u, fst step1 = Ok u) /\ QueryRow db' nspq xoid = Ok []
           /\ err = ErrNoRows)
      \/ ((exists u, fst step1 = Ok u)
           /\ exists schema others, QueryRow db' nspq xoid = Ok (schema :: others)
               /\ models_PgTableColumns db' schema xoid false = Fail err))
  /\ (forall cols : list Column,
        call = Ok cols <->
        (exists u, fst step1 = Ok u)
        /\ exists schema others, QueryRow db' nspq xoid = Ok (schema :: others)
            /\ models_PgTableColumns db' schema xoid false = Ok cols).
Proof.
  cbv zeta. unfold PgQueryColumns.
  destruct (Exec db (viewq_of randomID inspect)) as [[u|e1] db1]; cbn [fst snd].
  - unfold Scan.
    destruct (QueryRow db1 nspq (xoid_of randomID)) as [[|schema others]|e2];
      cbn [fst].
    + split.
      * intros err. split.
        -- intros [= <-]. right. right. left. eauto.
        -- intros [H | [(_ & H) | [(_ & _ & ->) | (_ & sc & ot & H & _)]]];
             try discriminate; reflexivity.
      * intros cols. split; [discriminate|].
        intros (_ & sc & ot & H & _). discriminate.
    + split.
      * intros err. split.
        -- intros H. right. right. right. split; [eauto|]. eauto.
        -- intros [H | [(_ & H) | [(_ & H & _) | (_ & sc & ot & H & H')]]];
             try discriminate. now injection H as <- <-.
      * intros cols. split.
        -- intros H. split; [eauto|]. eauto.
        -- intros (_ & sc & ot & H & H'). now injection H as <- <-.
    + split.
      * intros err. split.
        -- intros [= <-]. right. left. eauto.
        -- intros [H | [(_ & H) | [(_ & H & _) | (_ & sc & ot & H & _)]]];
             try discriminate. now injection H as <-.
      * intros cols. split; [discriminate|].
        intros (_ & sc & ot & H & _). discriminate.
  - split.
    + intros err. split.
      * intros [= <-]. now left.
      * intros [H | [((u & Hu) & _) | [((u & Hu) & _) | ((u & Hu) & _)]]];
          try discriminate. now injection H as <-.
    + intros cols. split; [discriminate|].
      intros ((u & Hu) & _). discriminate.
Qed.

End QueryColumnsFacts.

(** C7 as stated fails twice.  A namespace query that selects two rows is not
    a failure: the call succeeds with the listing for the first row.  And a
    failure carries no trace of its step: the failure of the view statement and
    the failure of the column listing with the same driver error are the same
    value. *)
Lemma PgQueryColumns_ambiguous_or_unwrapped :
  fst (PgQueryColumns unit string QueryColumnsExample.columns_ok
         QueryColumnsExample.exec_ok QueryColumnsExample.two_namespaces
         tt "abc" ["SELECT 1"])
  = Ok ["pg_temp_3"; "_xo_abc"]
  /\ fst (PgQueryColumns unit string QueryColumnsExample.columns_ok
            QueryColumnsExample.exec_fails QueryColumnsExample.one_namespace
            tt "abc" ["SELECT 1"])
     = Fail (DriverError "connection reset")
  /\ fst (PgQueryColumns unit string QueryColumnsExample.columns_fail
            QueryColumnsExample.exec_ok QueryColumnsExample.one_namespace
            tt "abc" ["SELECT 1"])
     = Fail (DriverError "connection reset").
Proof.
  split; [|split]; reflexivity.
Qed.

(** ** The query text normalizer *)

Section StripFacts.

Lemma store_inv {A : Type} (x : A) (a : list A) :
  forall (i : nat) (a' : list A),
    store i x a = Some a' ->
    (i < length a)%nat /\ length a' = length a
    /\ forall j, nth_error a' j = if (j =? i)%nat then Some x else nth_error a j.
Proof.
  induction a as [|h t IH]; intros i a' H; [destruct i; discriminate|].
  destruct i as [|i]; cbn [store] in H.
  - injection H as <-. cbn [length]. repeat split; [lia|].
    intros [|j]; reflexivity.
  - destruct (store i x t) as [t'|] eqn:E; [|discriminate].
    injection H as <-. destruct (IH _ _ E) as (Hlt & Hlen & Hnth).
    cbn [length]. repeat split; [lia | lia |].
    intros [|j]; [reflexivity|]. cbn [nth_error]. rewrite Hnth. reflexivity.
Qed.

Lemma store_in_range {A : Type} (x : A) (a : list A) :
  forall i : nat, (i < length a)%nat -> exists a', store i x a = Some a'.
Proof.
  induction a as [|h t IH]; intros i Hi; cbn [length] in Hi; [lia|].
  destruct i as [|i]; cbn [store]; [eauto|].
  destruct (IH i ltac:(lia)) as (t' & ->). eauto.
Qed.

(** A run of the loop that returns keeps the lengths of both slices, and the
    comments reach one past the last line visited. *)
Lemma strip_loop_lengths (todo : list string) :
  forall (i : nat) (query comments query' comments' : list string),
    strip_loop i todo query comments = Returns (query', comments') ->
    length query' = length query /\ length comments' = length comments
    /\ (todo <> [] -> (i + length todo < length comments)%nat).
Proof.
  induction todo as [|l todo IH]; intros i query comments query' comments' H.
  - injection H as <- <-. repeat split. intros Hne. now elim Hne.
  - cbn [strip_loop] in H.
    destruct (StripRE.FindStringIndex l) as [[p0 p1]|].
    + destruct (store i _ query) as [q1|] eqn:Eq; [|discriminate].
      destruct (store (S i) _ comments) as [c1|] eqn:Ec; [|discriminate].
      destruct (store_inv _ _ _ _ Eq) as (_ & Hq & _).
      destruct (store_inv _ _ _ _ Ec) as (Hi & Hc & _).
      destruct (IH _ _ _ _ _ H) as (Hq' & Hc' & Hb).
      repeat split; try congruence. intros _. cbn [length].
      destruct todo as [|l' todo']; [cbn [length]; lia|].
      specialize (Hb ltac:(discriminate)). cbn [length] in Hb |- *. lia.
    + destruct (store (S i) _ comments) as [c1|] eqn:Ec; [|discriminate].
      destruct (store_inv _ _ _ _ Ec) as (Hi & Hc & _).
      destruct (IH _ _ _ _ _ H) as (Hq' & Hc' & Hb).
      repeat split; try congruence. intros _. cbn [length].
      destruct todo as [|l' todo']; [cbn [length]; lia|].
      specialize (Hb ltac:(discriminate)). cbn [length] in Hb |- *. lia.
Qed.

End StripFacts.


(** ** The index column orderer *)

(** *** Tokens that [Atoi] accepts *)

Module TokenFacts.

Import Precision Strconv Strings.











End TokenFacts.

(** *** The ordering loop *)

Section IndexColumnsFacts.

Lemma find_column_found (cid : Z) (cols : list IndexColumn) (c : IndexColumn) :
  find_column cid cols = Some c -> In c cols /\ Cid c = cid.
Proof.
  induction cols as [|ic l IH]; [discriminate|]. cbn [find_column].
  destruct (Z.eqb_spec cid (Cid ic)) as [E|_].
  - intros [= <-]. split; [now left | now symmetry].
  - intros H. destruct (IH H) as [Hin Hc]. split; [now right | exact Hc].
Qed.

Lemma order_loop_ok (s table index : string) (cols : list IndexColumn)
      (tokens : list string) :
  forall ret out : list IndexColumn,
    order_loop s table index cols tokens ret = Ok out ->
    exists cids found,
      map Strconv.Atoi tokens = map Some cids
      /\ Forall2 (fun cid c => find_column cid cols = Some c) cids found
      /\ out = (ret ++ found)%list.
Proof.
  induction tokens as [|v l IH]; intros ret out H; cbn [order_loop] in H.
  - injection H as <-. exists [], []. repeat split; [constructor|].
    now rewrite app_nil_r.
  - destruct (Strconv.Atoi v) as [cid|] eqn:Ev; [|discriminate].
    destruct (find_column cid cols) as [c|] eqn:Ec; [|discriminate].
    destruct (IH _ _ H) as (cids & found & Hm & Hf & ->).
    exists (cid :: cids), (c :: found). cbn [map]. rewrite Ev, Hm.
    repeat split; [now constructor|]. now rewrite <- app_assoc.
Qed.


End IndexColumnsFacts.



(** * Further properties of the loader *)

(** ** The type translator *)

Section TranslateMore.

Variable SnakeToCamelIdentifier : string -> string.
Variable args : ArgType.

Lemma length_append (a b : string) :
  String.length (a ++ b) = (String.length a + String.length b)%nat.
Proof. induction a as [|c a IH]; cbn; [reflexivity | now rewrite IH]. Qed.

Lemma from_append (a b : string) : from (String.length a) (a ++ b) = b.
Proof. induction a as [|c a IH]; [reflexivity | exact IH]. Qed.

Lemma upto_append (a b : string) : upto (String.length a) (a ++ b) = a.
Proof. induction a as [|c a IH]; cbn; [now destruct b | now rewrite IH]. Qed.

Lemma nonSliceDt_zero (dt : string) :
  fst (nonSliceDt SnakeToCamelIdentifier dt)
  = snd (nonSliceDt SnakeToCamelIdentifier dt) ++ "{}".
Proof.
  unfold nonSliceDt.
  repeat match goal with
         | |- context [if ?b then _ else _] => destruct b; [reflexivity|]
         end.
  reflexivity.
Qed.

Lemma sliceDt_zero (dt : string) : fst (sliceDt dt) = snd (sliceDt dt) ++ "{}".
Proof. unfold sliceDt. destruct (dt =? "uuid"); reflexivity. Qed.

(** X1: the zero value [PgParseType] returns is [nil] for a type string that
    begins with [SETOF ], and for every other type string, scalar or array,
    known or not, it is the type name followed by [{}]. *)
Theorem PgParseType_zero_value (dt : string) (nullable : bool) :
  snd (fst (PgParseType SnakeToCamelIdentifier args dt nullable))
  = if HasPrefix dt "SETOF " then "nil"
    else snd (PgParseType SnakeToCamelIdentifier args dt nullable) ++ "{}".
Proof.
  rewrite PgParseType_step. destruct (HasPrefix dt "SETOF "); [reflexivity|].
  unfold parseScalarOrSlice.
  destruct (ParsePrecision args _) as [[base p] sc].
  pose proof (nonSliceDt_zero base) as Hn. pose proof (sliceDt_zero base) as Hs.
  destruct (nonSliceDt SnakeToCamelIdentifier base) as [n1 t1].
  destruct (sliceDt base) as [n2 t2]. cbn [fst snd] in Hn, Hs.
  destruct (HasSuffix dt "[]"); cbn [fst snd]; assumption.
Qed.

(** X2: [n + 1] markers [SETOF ] in front of a type string give precision 0,
    zero value [nil] and the slice type of depth [n + 1] over the type name of
    the string behind them. *)
Theorem PgParseType_nested_SETOF (n : nat) (dt : string) (nullable : bool) :
  PgParseType SnakeToCamelIdentifier args (setof (S n) dt) nullable
  = (0, "nil",
     slices (S n) (snd (PgParseType SnakeToCamelIdentifier args dt false))).
Proof.
  revert nullable. induction n as [|n IH]; intros nullable.
  - cbn [setof slices]. rewrite PgParseType_step. reflexivity.
  - change (setof (S (S n)) dt) with ("SETOF " ++ setof (S n) dt).
    rewrite PgParseType_step.
    change (HasPrefix ("SETOF " ++ setof (S n) dt) "SETOF ") with true.
    cbv iota. change (from 6 ("SETOF " ++ setof (S n) dt)) with (setof (S n) dt).
    rewrite IH. reflexivity.
Qed.

Lemma HasSuffix_append (a b : string) : HasSuffix (a ++ b) b = true.
Proof.
  unfold HasSuffix. rewrite length_append. apply andb_true_iff. split.
  - apply Nat.leb_le. lia.
  - replace (String.length a + String.length b - String.length b)%nat
      with (String.length a) by lia.
    rewrite from_append. apply String.eqb_refl.
Qed.

(** X3: for a type string [dt ++ "[]"] that does not begin with [SETOF ],
    [PgParseType] hands [dt] to [ParsePrecision] and returns the precision it
    finds with the zero value and type name [sliceDt] gives for the name it
    returns: [pgtype.UUIDArray] for [uuid], and the slice of the native name
    for every other name. *)
Theorem PgParseType_array (dt : string) (nullable : bool) :
  HasPrefix (dt ++ "[]") "SETOF " = false ->
  PgParseType SnakeToCamelIdentifier args (dt ++ "[]") nullable
  = (snd (fst (ParsePrecision args dt)),
     fst (sliceDt (fst (fst (ParsePrecision args dt)))),
     snd (sliceDt (fst (fst (ParsePrecision args dt)))))
  /\ (fst (fst (ParsePrecision args dt)) <> "uuid" ->
      snd (PgParseType SnakeToCamelIdentifier args (dt ++ "[]") nullable)
      = "[]" ++ fst (fst (ParsePrecision args dt))).
Proof.
  intros Hpre.
  assert (E : PgParseType SnakeToCamelIdentifier args (dt ++ "[]") nullable
              = (snd (fst (ParsePrecision args dt)),
                 fst (sliceDt (fst (fst (ParsePrecision args dt)))),
                 snd (sliceDt (fst (fst (ParsePrecision args dt)))))).
  { rewrite PgParseType_step, Hpre. unfold parseScalarOrSlice.
    rewrite HasSuffix_append, length_append.
    replace (String.length dt + String.length "[]" - 2)%nat
      with (String.length dt) by (cbn; lia).
    rewrite upto_append.
    destruct (ParsePrecision args dt) as [[base p] sc]. cbn [fst snd].
    destruct (nonSliceDt SnakeToCamelIdentifier base).
    destruct (sliceDt base). reflexivity. }
  split; [exact E|]. intros Hne. rewrite E. cbn [snd]. unfold sliceDt.
  destruct (String.eqb_spec (fst (fst (ParsePrecision args dt))) "uuid");
    [contradiction | reflexivity].
Qed.

(** X4: a name outside the family table always reaches the default case:
    [nonSliceDt] returns what [SnakeToCamelIdentifier] makes of it, with [{}]
    appended for the zero value. *)
Theorem nonSliceDt_outside_table (dt : string) :
  (forall canon, ~ In (dt, canon) family_table) ->
  nonSliceDt SnakeToCamelIdentifier dt
  = (SnakeToCamelIdentifier dt ++ "{}", SnakeToCamelIdentifier dt).
Proof.
  intros Hout. unfold nonSliceDt.
  repeat match goal with
         | |- context [String.eqb dt ?name] =>
             destruct (String.eqb_spec dt name) as [->|_];
             [ exfalso; eapply Hout; cbn [In family_table];
               repeat (first [left; reflexivity | right]) | ]
         end.
  reflexivity.
Qed.

End TranslateMore.

Lemma PgParseType_array_witness :
  HasPrefix ("my_enum(3)" ++ "[]") "SETOF " = false
  /\ PgParseType (fun s => s) Precision.args ("my_enum(3)" ++ "[]") true
     = (3, "[]my_enum{}", "[]my_enum").
Proof.
  assert (H : HasPrefix ("my_enum(3)" ++ "[]") "SETOF " = false) by reflexivity.
  split; [exact H|].
  exact (proj1 (PgParseType_array (fun s => s) Precision.args "my_enum(3)" true H)).
Defined.

Lemma nonSliceDt_outside_table_witness :
  (forall canon, ~ In ("order_status", canon) family_table)
  /\ nonSliceDt (fun s => "OrderStatus") "order_status"
     = ("OrderStatus{}", "OrderStatus").
Proof.
  assert (H : forall canon, ~ In ("order_status", canon) family_table).
  { intros canon Hin. cbn [In family_table] in Hin.
    repeat (destruct Hin as [Hin|Hin]; [discriminate|]). exact Hin. }
  split; [exact H|].
  exact (nonSliceDt_outside_table (fun s => "OrderStatus") "order_status" H).
Defined.

(** ** The relation kinds, further *)

(** X5: the codes of [PgRelkind] tell the kinds apart: two relation kinds for
    which it returns the same code are equal. *)
Theorem PgRelkind_injective (Table View relType1 relType2 : RelType) (code : string) :
  Table <> View ->
  PgRelkind Table View relType1 = Returns code ->
  PgRelkind Table View relType2 = Returns code ->
  relType1 = relType2.
Proof.
  intros Hdistinct. unfold PgRelkind.
  destruct (N.eqb_spec relType1 Table) as [-> | _];
    [| destruct (N.eqb_spec relType1 View) as [-> | _]; [|discriminate] ];
    (destruct (N.eqb_spec relType2 Table) as [-> | _];
     [| destruct (N.eqb_spec relType2 View) as [-> | _]; [|discriminate] ]);
    intros H1 H2; try reflexivity; rewrite <- H1 in H2; discriminate.
Qed.

Lemma PgRelkind_injective_witness :
  0%N <> 1%N
  /\ PgRelkind 0%N 1%N 1%N = Returns "v"
  /\ 1%N = 1%N.
Proof.
  assert (H : 0%N <> 1%N) by discriminate.
  split; [exact H | split; [reflexivity|]].
  exact (PgRelkind_injective 0%N 1%N 1%N 1%N "v" H eq_refl eq_refl).
Defined.

(** ** The query text normalizer, further *)

Section StripMore.

(** Every return of the loop is after the same panic or none: the message. *)
Lemma strip_loop_panic (todo : list string) :
  forall (i : nat) (query comments : list string) (msg : string),
    strip_loop i todo query comments = Panics msg -> msg = "index out of range".
Proof.
  induction todo as [|l todo IH]; intros i query comments msg H;
    cbn [strip_loop] in H; [discriminate|].
  destruct (StripRE.FindStringIndex l) as [[p0 p1]|].
  - destruct (store i _ query) as [q1|]; [|now injection H].
    destruct (store (S i) _ comments) as [c1|]; [|now injection H]. eauto.
  - destruct (store (S i) _ comments) as [c1|]; [|now injection H]. eauto.
Qed.

Lemma strip_loop_returns (todo : list string) :
  forall (i : nat) (query comments : list string),
    (i + length todo <= length query)%nat ->
    (todo <> [] -> (i + length todo < length comments)%nat) ->
    exists query' comments',
      strip_loop i todo query comments = Returns (query', comments').
Proof.
  induction todo as [|l todo IH]; intros i query comments Hq Hc;
    cbn [strip_loop]; [eauto|].
  cbn [length] in Hq. specialize (Hc ltac:(discriminate)). cbn [length] in Hc.
  destruct (StripRE.FindStringIndex l) as [[p0 p1]|].
  - destruct (store_in_range (upto p0 l ++ from p1 l) query i ltac:(lia))
      as (q1 & Eq).
    destruct (store_in_range (upto (p1 - p0) (from p0 l)) comments (S i)
                ltac:(lia)) as (c1 & Ec).
    rewrite Eq, Ec.
    destruct (store_inv _ _ _ _ Eq) as (_ & Hq1 & _).
    destruct (store_inv _ _ _ _ Ec) as (_ & Hc1 & _).
    apply IH; [lia | intros _; lia].
  - destruct (store_in_range EmptyString comments (S i) ltac:(lia)) as (c1 & Ec).
    rewrite Ec. destruct (store_inv _ _ _ _ Ec) as (_ & Hc1 & _).
    apply IH; [lia | intros _; lia].
Qed.

(** X6: [PgQueryStrip] returns when there are no lines or when the comments
    are longer than the lines, and in every other case it panics with an
    index out of range. *)
Theorem PgQueryStrip_bounds (query comments : list string) :
  ((query = [] \/ (length query < length comments)%nat) ->
   exists query' comments',
     PgQueryStrip query comments = Returns (query', comments'))
  /\ (query <> [] -> (length comments <= length query)%nat ->
      PgQueryStrip query comments = Panics "index out of range").
Proof.
  unfold PgQueryStrip. split.
  - intros H. apply strip_loop_returns; [cbn; lia|].
    intros Hne. destruct H as [-> | H]; [now elim Hne | cbn; lia].
  - intros Hne Hlen.
    destruct (strip_loop 0 query query comments) as [[q' c']|msg] eqn:E.
    + destruct (strip_loop_lengths _ _ _ _ _ _ E) as (_ & _ & Hb).
      specialize (Hb Hne). cbn in Hb. lia.
    + now rewrite (strip_loop_panic _ _ _ _ _ E).
Qed.

(** The loop visits the lines [todo = query[i:]]: it stores [strip_line] of
    each of them and leaves the rest of both slices alone. *)
Lemma strip_loop_lines (todo : list string) :
  forall (i : nat) (query comments query' comments' : list string),
    strip_loop i todo query comments = Returns (query', comments') ->
    (forall j l, nth_error todo j = Some l -> nth_error query (i + j) = Some l) ->
    (forall j l, nth_error todo j = Some l ->
                 nth_error query' (i + j) = Some (fst (strip_line l))
                 /\ nth_error comments' (S (i + j)) = Some (snd (strip_line l)))
    /\ (forall j, (j < i)%nat -> nth_error query' j = nth_error query j)
    /\ (forall j, (j <= i)%nat \/ (i + length todo < j)%nat ->
                  nth_error comments' j = nth_error comments j).
Proof.
  induction todo as [|l todo IH];
    intros i query comments query' comments' Hrun Hsuffix.
  - injection Hrun as <- <-. split; [|split]; try reflexivity.
    intros [|j] l H; discriminate.
  - cbn [strip_loop] in Hrun.
    assert (Hl : nth_error query i = Some l)
      by (rewrite <- (Nat.add_0_r i); now apply Hsuffix).
    assert (Hline : exists q1 c1,
               strip_loop (S i) todo q1 c1 = Returns (query', comments')
               /\ (forall j, nth_error q1 j
                             = if (j =? i)%nat then Some (fst (strip_line l))
                               else nth_error query j)
               /\ (forall j, nth_error c1 j
                             = if (j =? S i)%nat then Some (snd (strip_line l))
                               else nth_error comments j)).
    { unfold strip_line.
      destruct (StripRE.FindStringIndex l) as [[p0 p1]|].
      - destruct (store i _ query) as [q1|] eqn:Eq; [|discriminate].
        destruct (store (S i) _ comments) as [c1|] eqn:Ec; [|discriminate].
        exists q1, c1. split; [exact Hrun|].
        split; [apply (store_inv _ _ _ _ Eq) | apply (store_inv _ _ _ _ Ec)].
      - destruct (store (S i) _ comments) as [c1|] eqn:Ec; [|discriminate].
        exists query, c1. split; [exact Hrun|].
        split; [| apply (store_inv _ _ _ _ Ec)].
        intros j. destruct (Nat.eqb_spec j i) as [->|_]; [exact Hl | reflexivity]. }
    destruct Hline as (q1 & c1 & Hrest & Hq1 & Hc1).
    destruct (IH _ _ _ _ _ Hrest) as (Hlines & Hqframe & Hcframe).
    { intros j l' Hj. rewrite Hq1.
      destruct (Nat.eqb_spec (S i + j) i) as [E|_]; [lia|].
      replace (S i + j)%nat with (i + S j)%nat by lia. now apply Hsuffix. }
    split; [|split].
    + intros [|j] l' Hj.
      * injection Hj as <-. rewrite Nat.add_0_r.
        rewrite (Hqframe i) by lia. rewrite (Hcframe (S i)) by lia.
        rewrite Hq1, Hc1, !Nat.eqb_refl. split; reflexivity.
      * replace (i + S j)%nat with (S i + j)%nat by lia. now apply Hlines.
    + intros j Hj. rewrite (Hqframe j) by lia. rewrite Hq1.
      destruct (Nat.eqb_spec j i); [lia | reflexivity].
    + intros j Hj. cbn [length] in Hj. rewrite (Hcframe j) by lia. rewrite Hc1.
      destruct (Nat.eqb_spec j (S i)); [lia | reflexivity].
Qed.

(** X7: a pass of [PgQueryStrip] that returns keeps the number of lines and of
    comments, and leaves the first comment and the comments beyond the
    lines as they were. *)
Theorem PgQueryStrip_frame (query comments query' comments' : list string) :
  PgQueryStrip query comments = Returns (query', comments') ->
  length query' = length query
  /\ length comments' = length comments
  /\ nth_error comments' 0 = nth_error comments 0
  /\ (forall j, (length query < j)%nat ->
                nth_error comments' j = nth_error comments j).
Proof.
  unfold PgQueryStrip. intros Hrun.
  destruct (strip_loop_lengths _ _ _ _ _ _ Hrun) as (Hq & Hc & _).
  destruct (strip_loop_lines _ _ _ _ _ _ Hrun) as (_ & _ & Hframe);
    [intros j l H; exact H|].
  repeat split; try assumption.
  - apply Hframe. left. lia.
  - intros j Hj. apply Hframe. right. cbn. lia.
Qed.

Lemma append_empty_r (s : string) : s ++ EmptyString = s.
Proof. induction s as [|c r IH]; cbn; [reflexivity | now rewrite IH]. Qed.

Lemma upto_from (n : nat) (s : string) : upto n s ++ from n s = s.
Proof.
  revert s. induction n as [|n IH]; intros [|c r]; cbn; try reflexivity.
  now rewrite IH.
Qed.

Lemma from_from (a b : nat) (s : string) : from a (from b s) = from (b + a) s.
Proof.
  revert s. induction b as [|b IH]; intros s; [reflexivity|].
  destruct s as [|c r]; cbn [from Nat.add]; [now destruct a | apply IH].
Qed.

Lemma find_from_order (s : string) :
  forall (i p0 p1 : nat),
    StripRE.find_from i s = Some (p0, p1) -> (i <= p0 <= p1)%nat.
Proof.
  induction s as [|c r IH]; intros i p0 p1; cbn [StripRE.find_from].
  - destruct (StripRE.match_here EmptyString); [|discriminate].
    intros [= <- <-]. lia.
  - destruct (StripRE.match_here (String c r)).
    + intros [= <- <-]. lia.
    + intros H. apply IH in H. lia.
Qed.

(** The line, cut where the pattern was found. *)
Lemma strip_line_parts (l : string) :
  exists before after,
    fst (strip_line l) = before ++ after
    /\ l = before ++ snd (strip_line l) ++ after.
Proof.
  unfold strip_line, StripRE.FindStringIndex.
  destruct (StripRE.find_from 0 l) as [[p0 p1]|] eqn:E; cbn [fst snd].
  - apply find_from_order in E.
    exists (upto p0 l), (from p1 l). split; [reflexivity|].
    replace (from p1 l) with (from (p1 - p0) (from p0 l))
      by (rewrite from_from; f_equal; lia).
    now rewrite !upto_from.
  - exists l, EmptyString. split; [now rewrite append_empty_r|].
    cbn. now rewrite append_empty_r.
Qed.

(** X8: nothing of a line is lost.  After a pass of [PgQueryStrip] that
    returns, the comment recorded for a line, put back between two parts of
    the stored line, gives the line as it was. *)
Theorem PgQueryStrip_round_trip
        (query comments query' comments' : list string) (i : nat) (l : string) :
  PgQueryStrip query comments = Returns (query', comments') ->
  nth_error query i = Some l ->
  exists before after comment,
    nth_error query' i = Some (before ++ after)
    /\ nth_error comments' (S i) = Some comment
    /\ l = before ++ comment ++ after.
Proof.
  unfold PgQueryStrip. intros Hrun Hl.
  destruct (strip_loop_lines _ _ _ _ _ _ Hrun) as (Hlines & _);
    [intros j l' H; exact H|].
  destruct (Hlines i l Hl) as (Hq & Hc). cbn [Nat.add] in Hq, Hc.
  destruct (strip_line_parts l) as (before & after & Hb & Ha).
  exists before, after, (snd (strip_line l)).
  rewrite <- Hb. repeat split; assumption.
Qed.

End StripMore.

Lemma PgQueryStrip_frame_witness :
  PgQueryStrip ["SELECT a::int AS aa"; "FROM t"] ["-- q"; "old"; "old"; "tail"]
  = Returns (["SELECT a"; "FROM t"], ["-- q"; "::int AS aa"; ""; "tail"])
  /\ length ["SELECT a"; "FROM t"] = length ["SELECT a::int AS aa"; "FROM t"]
  /\ nth_error ["-- q"; "::int AS aa"; ""; "tail"] 3
     = nth_error ["-- q"; "old"; "old"; "tail"] 3.
Proof.
  assert (H : PgQueryStrip ["SELECT a::int AS aa"; "FROM t"]
                ["-- q"; "old"; "old"; "tail"]
              = Returns (["SELECT a"; "FROM t"], ["-- q"; "::int AS aa"; ""; "tail"]))
    by reflexivity.
  destruct (PgQueryStrip_frame _ _ _ _ H) as (Hq & _ & _ & Hrest).
  split; [exact H | split; [exact Hq | apply Hrest; cbn; lia]].
Defined.

Lemma PgQueryStrip_round_trip_witness :
  PgQueryStrip ["SELECT a::int AS aa, b"] [""; ""]
  = Returns (["SELECT a, b"], [""; "::int AS aa"])
  /\ exists before after comment,
      nth_error ["SELECT a, b"] 0 = Some (before ++ after)
      /\ nth_error [""; "::int AS aa"] 1 = Some comment
      /\ "SELECT a::int AS aa, b" = before ++ comment ++ after.
Proof.
  assert (H : PgQueryStrip ["SELECT a::int AS aa, b"] [""; ""]
              = Returns (["SELECT a, b"], [""; "::int AS aa"])) by reflexivity.
  split; [exact H|].
  exact (PgQueryStrip_round_trip _ _ _ _ 0%nat _ H eq_refl).
Defined.

(** *** The span a match covers *)

Module StripREFacts.

Import StripRE.

Lemma eat_folded_shorter (s r : string) :
  eat_folded s = Some r -> (String.length r + 2 <= String.length s)%nat.
Proof.
  unfold eat_folded. destruct s as [|c1 [|c2 r2]]; try discriminate.
  destruct (is_byte 197 c1 && is_byte 191 c2).
  - intros [= <-]. cbn. lia.
  - destruct r2 as [|c3 r3]; [discriminate|].
    destruct (is_byte 226 c1 && is_byte 132 c2 && is_byte 170 c3);
      [|discriminate].
    intros [= <-]. cbn. lia.
Qed.

Lemma eat_letter_shorter (s r : string) :
  eat_letter s = Some r -> (String.length r + 1 <= String.length s)%nat.
Proof.
  unfold eat_letter. destruct s as [|c r']; [discriminate|].
  destruct (letter c).
  - intros [= <-]. cbn. lia.
  - intros H. apply eat_folded_shorter in H. lia.
Qed.

Lemma eat_word_shorter (s r : string) :
  eat_word s = Some r -> (String.length r + 1 <= String.length s)%nat.
Proof.
  unfold eat_word. destruct s as [|c r']; [discriminate|].
  destruct (word c).
  - intros [= <-]. cbn. lia.
  - intros H. apply eat_folded_shorter in H. lia.
Qed.

Lemma eat_space_shorter (s r : string) :
  eat_space s = Some r -> (String.length r + 1 <= String.length s)%nat.
Proof.
  unfold eat_space. destruct s as [|c r']; [discriminate|].
  destruct (space c); [|discriminate]. intros [= <-]. cbn. lia.
Qed.

Lemma eat_AS_shorter (s r : string) :
  eat_AS s = Some r -> (String.length r + 2 <= String.length s)%nat.
Proof.
  unfold eat_AS. destruct s as [|a [|c r']]; try discriminate.
  - destruct (is_byte 65 a || is_byte 97 a); discriminate.
  - destruct (is_byte 65 a || is_byte 97 a); [|discriminate].
    destruct (is_byte 83 c || is_byte 115 c).
    + intros [= <-]. cbn. lia.
    + destruct r' as [|c' r'']; [discriminate|].
      destruct (is_byte 197 c && is_byte 191 c'); [|discriminate].
      intros [= <-]. cbn. lia.
Qed.

Lemma skip_space_le (s : string) :
  (String.length (skip_space s) <= String.length s)%nat.
Proof.
  induction s as [|c r IH]; cbn [skip_space]; [lia|].
  destruct (space c); cbn [String.length]; lia.
Qed.

Lemma skip_word_le_bounded (n : nat) :
  forall s : string,
    (String.length s <= n)%nat ->
    (String.length (skip_word s) <= String.length s)%nat.
Proof.
  induction n as [|n IH]; intros s Hs.
  - destruct s; [cbn; lia | cbn in Hs; lia].
  - destruct s as [|c1 r1]; [cbn; lia|]. cbn [skip_word].
    cbn [String.length] in Hs.
    destruct (word c1).
    + specialize (IH r1 ltac:(lia)). cbn [String.length]. lia.
    + destruct r1 as [|c2 r2]; [lia|]. cbn [String.length] in Hs.
      destruct (is_byte 197 c1 && is_byte 191 c2).
      * specialize (IH r2 ltac:(lia)). cbn [String.length]. lia.
      * destruct r2 as [|c3 r3]; [lia|]. cbn [String.length] in Hs.
        destruct (is_byte 226 c1 && is_byte 132 c2 && is_byte 170 c3); [|lia].
        specialize (IH r3 ltac:(lia)). cbn [String.length]. lia.
Qed.

Lemma skip_word_le (s : string) :
  (String.length (skip_word s) <= String.length s)%nat.
Proof. now apply (skip_word_le_bounded (String.length s)). Qed.

Lemma is_byte_58 (c : ascii) : is_byte 58 c = true -> c = ":"%char.
Proof.
  unfold is_byte. intros H. apply N.eqb_eq in H.
  rewrite <- (ascii_N_embedding c), H. reflexivity.
Qed.

(** A match starts with two colons and spans at least ten bytes. *)
Lemma match_here_shape (s rest : string) :
  match_here s = Some rest ->
  (String.length rest + 10 <= String.length s)%nat
  /\ exists r, s = String ":" (String ":" r).
Proof.
  unfold match_here. destruct s as [|c1 [|c2 r]]; try discriminate.
  destruct (is_byte 58 c1 && is_byte 58 c2) eqn:Ecolon; [|discriminate].
  apply andb_prop in Ecolon as [E1 E2].
  apply is_byte_58 in E1. apply is_byte_58 in E2. subst c1 c2.
  unfold andThen.
  destruct (eat_letter r) as [r1|] eqn:H1; [|discriminate].
  destruct (eat_word r1) as [r2|] eqn:H2; [|discriminate].
  destruct (eat_space (skip_word r2)) as [r3|] eqn:H3; [|discriminate].
  destruct (eat_AS (skip_space r3)) as [r4|] eqn:H4; [|discriminate].
  destruct (eat_space r4) as [r5|] eqn:H5; [|discriminate].
  destruct (eat_letter (skip_space r5)) as [r6|] eqn:H6; [|discriminate].
  destruct (eat_word r6) as [r7|] eqn:H7; [|discriminate].
  intros [= <-]. split; [|eauto].
  apply eat_letter_shorter in H1. apply eat_word_shorter in H2.
  apply eat_space_shorter in H3. apply eat_AS_shorter in H4.
  apply eat_space_shorter in H5. apply eat_letter_shorter in H6.
  apply eat_word_shorter in H7.
  pose proof (skip_word_le r2). pose proof (skip_space_le r3).
  pose proof (skip_space_le r5). pose proof (skip_word_le r7).
  cbn [String.length]. lia.
Qed.

Lemma find_from_shape (s : string) :
  forall (i p0 p1 : nat),
    find_from i s = Some (p0, p1) ->
    (i <= p0)%nat /\ (p0 + 10 <= p1)%nat /\ (p1 <= i + String.length s)%nat
    /\ exists r, from (p0 - i) s = String ":" (String ":" r).
Proof.
  induction s as [|c r IH]; intros i p0 p1; cbn [find_from].
  - destruct (match_here EmptyString) eqn:E; [|discriminate]. discriminate E.
  - destruct (match_here (String c r)) as [rest|] eqn:E.
    + intros [= <- <-]. apply match_here_shape in E as (Hlen & r' & Hr').
      cbn [String.length] in Hlen |- *.
      split; [lia | split; [| split]].
      * destruct (String.length rest); lia.
      * destruct (String.length rest); lia.
      * exists r'. now rewrite Nat.sub_diag.
    + intros H. apply IH in H as (Hi & Hspan & Hend & r' & Hr').
      split; [lia | split; [lia | split; [cbn [String.length]; lia|]]].
      exists r'. replace (p0 - i)%nat with (S (p0 - S i)) by lia. exact Hr'.
Qed.

Lemma length_from (n : nat) (s : string) :
  String.length (from n s) = (String.length s - n)%nat.
Proof.
  revert s. induction n as [|n IH]; intros s; cbn [from]; [lia|].
  destruct s as [|c r]; [reflexivity|]. cbn [String.length]. now rewrite IH.
Qed.

Lemma length_upto (n : nat) (s : string) :
  (n <= String.length s)%nat -> String.length (upto n s) = n.
Proof.
  revert s. induction n as [|n IH]; intros s H; [reflexivity|].
  destruct s as [|c r]; cbn in H; [lia|]. cbn. rewrite IH; lia.
Qed.

(** What [strip_line] records: nothing for a line it keeps, and otherwise
    at least ten bytes that begin with two colons. *)
Lemma strip_line_shape (l : string) :
  (snd (strip_line l) = EmptyString /\ fst (strip_line l) = l)
  \/ (HasPrefix (snd (strip_line l)) "::" = true
      /\ (10 <= String.length (snd (strip_line l)))%nat).
Proof.
  unfold strip_line, FindStringIndex.
  destruct (find_from 0 l) as [[p0 p1]|] eqn:E; cbn [fst snd]; [right | now left].
  apply find_from_shape in E as (_ & Hspan & Hend & r & Hr).
  rewrite Nat.sub_0_r in Hr. cbn [Nat.add] in Hend.
  assert (Hlen : String.length (upto (p1 - p0) (from p0 l)) = (p1 - p0)%nat)
    by (apply length_upto; rewrite length_from; lia).
  split; [|lia].
  rewrite Hr. destruct (p1 - p0)%nat as [|[|d]] eqn:Ed; try lia. reflexivity.
Qed.

Lemma match_here_no_colons (s : string) :
  match s with
  | String c1 (String c2 _) => is_byte 58 c1 && is_byte 58 c2 = false
  | _ => True
  end ->
  match_here s = None.
Proof.
  unfold match_here. destruct s as [|c1 [|c2 r]]; try reflexivity.
  now intros ->.
Qed.

(** A line without two colons in a row has no match. *)
Lemma find_from_no_double_colon (s : string) :
  forall i : nat, no_double_colon s = true -> find_from i s = None.
Proof.
  induction s as [|c1 r IH]; intros i H; [reflexivity|].
  cbn [no_double_colon] in H. apply andb_prop in H as [Hhead Hr].
  cbn [find_from]. rewrite match_here_no_colons.
  - now apply IH.
  - destruct r as [|c2 r']; [exact I|]. now apply negb_true_iff in Hhead.
Qed.

End StripREFacts.

Section StripShape.

(** X9: after a pass of [PgQueryStrip] that returns, each line either is as
    it was and has the empty comment, or has lost exactly the bytes of its
    comment, which are at least ten and begin with two colons. *)
Theorem PgQueryStrip_comment_shape
        (query comments query' comments' : list string) (i : nat) (l : string) :
  PgQueryStrip query comments = Returns (query', comments') ->
  nth_error query i = Some l ->
  exists l' comment,
    nth_error query' i = Some l'
    /\ nth_error comments' (S i) = Some comment
    /\ (String.length l' + String.length comment = String.length l)%nat
    /\ ((comment = EmptyString /\ l' = l)
        \/ (HasPrefix comment "::" = true /\ (10 <= String.length comment)%nat)).
Proof.
  unfold PgQueryStrip. intros Hrun Hl.
  destruct (strip_loop_lines _ _ _ _ _ _ Hrun) as (Hlines & _);
    [intros j l' H; exact H|].
  destruct (Hlines i l Hl) as (Hq & Hc). cbn [Nat.add] in Hq, Hc.
  exists (fst (strip_line l)), (snd (strip_line l)).
  split; [exact Hq | split; [exact Hc | split]].
  - destruct (strip_line_parts l) as (before & after & Hb & Ha).
    rewrite Hb. pose proof (f_equal String.length Ha) as Hlen.
    rewrite length_append. rewrite 2!length_append in Hlen. lia.
  - apply StripREFacts.strip_line_shape.
Qed.

(** X10: a line in which no two colons follow each other is never changed,
    and its comment is empty. *)
Theorem PgQueryStrip_keeps_plain_lines
        (query comments query' comments' : list string) (i : nat) (l : string) :
  PgQueryStrip query comments = Returns (query', comments') ->
  nth_error query i = Some l ->
  no_double_colon l = true ->
  nth_error query' i = Some l /\ nth_error comments' (S i) = Some EmptyString.
Proof.
  unfold PgQueryStrip. intros Hrun Hl Hplain.
  destruct (strip_loop_lines _ _ _ _ _ _ Hrun) as (Hlines & _);
    [intros j l' H; exact H|].
  destruct (Hlines i l Hl) as (Hq & Hc). cbn [Nat.add] in Hq, Hc.
  unfold strip_line, StripRE.FindStringIndex in Hq, Hc.
  rewrite (StripREFacts.find_from_no_double_colon l 0 Hplain) in Hq, Hc.
  split; assumption.
Qed.

End StripShape.

Lemma PgQueryStrip_comment_shape_witness :
  PgQueryStrip ["SELECT a::bigint   as  total_1"] [""; ""]
  = Returns (["SELECT a"], [""; "::bigint   as  total_1"])
  /\ exists l' comment,
      nth_error ["SELECT a"] 0 = Some l'
      /\ nth_error [""; "::bigint   as  total_1"] 1 = Some comment
      /\ (String.length l' + String.length comment
          = String.length "SELECT a::bigint   as  total_1")%nat
      /\ ((comment = EmptyString /\ l' = "SELECT a::bigint   as  total_1")
          \/ (HasPrefix comment "::" = true /\ (10 <= String.length comment)%nat)).
Proof.
  assert (H : PgQueryStrip ["SELECT a::bigint   as  total_1"] [""; ""]
              = Returns (["SELECT a"], [""; "::bigint   as  total_1"]))
    by reflexivity.
  split; [exact H|].
  exact (PgQueryStrip_comment_shape _ _ _ _ 0%nat _ H eq_refl).
Defined.

Lemma PgQueryStrip_keeps_plain_lines_witness :
  PgQueryStrip ["SELECT a::int AS aa"; "WHERE b: c AS dd"] ["old"; "old"; "old"]
  = Returns (["SELECT a"; "WHERE b: c AS dd"], ["old"; "::int AS aa"; ""])
  /\ no_double_colon "WHERE b: c AS dd" = true
  /\ nth_error ["SELECT a"; "WHERE b: c AS dd"] 1 = Some "WHERE b: c AS dd"
  /\ nth_error ["old"; "::int AS aa"; ""] 2 = Some EmptyString.
Proof.
  assert (H : PgQueryStrip ["SELECT a::int AS aa"; "WHERE b: c AS dd"]
                ["old"; "old"; "old"]
              = Returns (["SELECT a"; "WHERE b: c AS dd"],
                         ["old"; "::int AS aa"; ""])) by reflexivity.
  assert (Hp : no_double_colon "WHERE b: c AS dd" = true) by reflexivity.
  split; [exact H | split; [exact Hp|]].
  exact (PgQueryStrip_keeps_plain_lines _ _ _ _ 1%nat _ H eq_refl Hp).
Defined.

(** ** The index column orderer, further *)

Section IndexColumnsMore.

Variable XODB : Type.
Variable models_PgIndexColumns : XODB -> string -> string -> result (list IndexColumn).
Variable models_PgGetColOrder : XODB -> string -> string -> result PgColOrder.

Lemma order_loop_exact (s table index : string) (cols : list IndexColumn)
      (tokens : list string) :
  forall (cids : list Z) (found ret : list IndexColumn),
    map Strconv.Atoi tokens = map Some cids ->
    Forall2 (fun cid c => find_column cid cols = Some c) cids found ->
    order_loop s table index cols tokens ret = Ok (ret ++ found)%list.
Proof.
  induction tokens as [|v l IH]; intros cids found ret Hm Hf.
  - destruct cids; [|discriminate]. inversion Hf. cbn. now rewrite app_nil_r.
  - destruct cids as [|cid cids]; [discriminate|]. injection Hm as Hv Hl.
    inversion Hf as [|? c ? found' Hc Hf']; subst.
    cbn [order_loop]. rewrite Hv, Hc.
    rewrite (IH _ _ _ Hl Hf'), <- app_assoc. reflexivity.
Qed.

Lemma resolves_all (cols : list IndexColumn) (tokens : list string) :
  Forall (resolves cols) tokens <->
  exists cids found,
    map Strconv.Atoi tokens = map Some cids
    /\ Forall2 (fun cid c => find_column cid cols = Some c) cids found.
Proof.
  split.
  - induction 1 as [|v l (cid & c & Hv & Hc) _ (cids & found & Hm & Hf)].
    + exists [], []. split; [reflexivity | constructor].
    + exists (cid :: cids), (c :: found). cbn [map]. rewrite Hv, Hm.
      split; [reflexivity | now constructor].
  - intros (cids & found & Hm & Hf). revert tokens Hm.
    induction Hf as [|cid c cids found Hc _ IH]; intros tokens Hm.
    + destruct tokens; [constructor | discriminate].
    + destruct tokens as [|v l]; [discriminate|]. injection Hm as Hv Hl.
      constructor; [now exists cid, c | now apply IH].
Qed.

(** X11: once both fetches have succeeded, [PgIndexColumns] succeeds exactly
    when [Atoi] converts every piece of the ordinal string between blanks and
    a fetched column has the identifier. *)
Theorem PgIndexColumns_succeeds_iff
        (db : XODB) (schema table index : string)
        (cols : list IndexColumn) (colOrd : PgColOrder) :
  models_PgIndexColumns db schema index = Ok cols ->
  models_PgGetColOrder db schema index = Ok colOrd ->
  ((exists ret,
       PgIndexColumns XODB models_PgIndexColumns models_PgGetColOrder
         db schema table index = Ok ret)
   <-> Forall (resolves cols) (Strings.Split_space (Ord colOrd))).
Proof.
  intros Hcols Hord. unfold PgIndexColumns. rewrite Hcols, Hord. cbv zeta.
  rewrite resolves_all. split.
  - intros (ret & Hret).
    destruct (order_loop_ok _ _ _ _ _ _ _ Hret) as (cids & found & Hm & Hf & _).
    eauto.
  - intros (cids & found & Hm & Hf). exists ([] ++ found)%list.
    now apply (order_loop_exact _ _ _ _ _ cids).
Qed.

Lemma find_column_self (cols : list IndexColumn) (c : IndexColumn) :
  NoDup (map Cid cols) -> In c cols -> find_column (Cid c) cols = Some c.
Proof.
  induction cols as [|ic l IH]; intros Hnd Hin; [contradiction|].
  cbn [map] in Hnd. apply NoDup_cons_iff in Hnd as [Hfresh Hnd].
  cbn [find_column]. destruct Hin as [-> | Hin].
  - now rewrite Z.eqb_refl.
  - destruct (Z.eqb_spec (Cid c) (Cid ic)) as [E|_]; [|now apply IH].
    elim Hfresh. rewrite <- E. now apply in_map.
Qed.

Lemma find_column_known (cols : list IndexColumn) (cid : Z) :
  In cid (map Cid cols) -> exists c, find_column cid cols = Some c.
Proof.
  induction cols as [|ic l IH]; intros Hin; [contradiction|].
  cbn [find_column]. destruct (Z.eqb_spec cid (Cid ic)) as [_|Hne]; [eauto|].
  destruct Hin as [E|Hin]; [now elim Hne | now apply IH].
Qed.

(** X12: when the fetched columns have pairwise distinct identifiers and the
    ordinal string lists exactly these identifiers, in any order, the call
    succeeds and returns the fetched columns rearranged, none lost and none
    repeated, with their identifiers in the order of the ordinal string. *)
Theorem PgIndexColumns_rearranges
        (db : XODB) (schema table index : string)
        (cols : list IndexColumn) (colOrd : PgColOrder) (cids : list Z) :
  models_PgIndexColumns db schema index = Ok cols ->
  models_PgGetColOrder db schema index = Ok colOrd ->
  map Strconv.Atoi (Strings.Split_space (Ord colOrd)) = map Some cids ->
  NoDup (map Cid cols) ->
  Permutation cids (map Cid cols) ->
  exists ret,
    PgIndexColumns XODB models_PgIndexColumns models_PgGetColOrder
      db schema table index = Ok ret
    /\ map Cid ret = cids
    /\ Permutation ret cols.
Proof.
  intros Hcols Hord Hm Hnd Hperm.
  assert (Hknown : forall cid, In cid cids ->
                               find_column cid cols = Some (pick cols cid)).
  { intros cid Hin. unfold pick.
    destruct (find_column_known cols cid) as (c & ->); [|reflexivity].
    now apply (Permutation_in _ Hperm). }
  assert (Hf : Forall2 (fun cid c => find_column cid cols = Some c)
                 cids (map (pick cols) cids)).
  { clear - Hknown. induction cids as [|cid l IH]; cbn [map]; constructor.
    - apply Hknown. now left.
    - apply IH. intros cid' Hin. apply Hknown. now right. }
  exists (map (pick cols) cids). split; [|split].
  - unfold PgIndexColumns. rewrite Hcols, Hord. cbv zeta.
    now rewrite (order_loop_exact _ _ _ _ _ cids (map (pick cols) cids) []).
  - rewrite map_map. rewrite <- (map_id cids) at 2. apply map_ext_in.
    intros cid Hin. apply (find_column_found _ _ _ (Hknown cid Hin)).
  - rewrite (Permutation_map (pick cols) Hperm), map_map.
    rewrite <- (map_id cols) at 2.
    rewrite (map_ext_in (fun c => pick cols (Cid c)) (fun c => c)); [reflexivity|].
    intros c Hin. unfold pick. now rewrite (find_column_self cols c Hnd Hin).
Qed.

Lemma pieces_not_nil (sep : ascii -> bool) (s : string) :
  Strings.pieces sep s <> [].
Proof.
  destruct s as [|c r]; cbn [Strings.pieces]; [discriminate|].
  destruct (sep c); [discriminate|].
  destruct (Strings.pieces sep r); discriminate.
Qed.

(** X13: a call of [PgIndexColumns] that succeeds returns at least one
    column, and the ordinal string it read has no empty piece between
    blanks: an empty string, a blank at either end or two blanks in a row make
    the call fail. *)
Theorem PgIndexColumns_never_empty
        (db : XODB) (schema table index : string) (ret : list IndexColumn) :
  PgIndexColumns XODB models_PgIndexColumns models_PgGetColOrder
    db schema table index = Ok ret ->
  ret <> []
  /\ exists colOrd,
      models_PgGetColOrder db schema index = Ok colOrd
      /\ ~ In EmptyString (Strings.Split_space (Ord colOrd)).
Proof.
  unfold PgIndexColumns.
  destruct (models_PgIndexColumns db schema index) as [cols|]; [|discriminate].
  destruct (models_PgGetColOrder db schema index) as [colOrd|]; [|discriminate].
  cbv zeta. intros Hret.
  destruct (order_loop_ok _ _ _ _ _ _ _ Hret) as (cids & found & Hm & Hf & ->).
  cbn [app]. split.
  - intros ->. inversion Hf; subst.
    destruct (Strings.Split_space (Ord colOrd)) eqn:E; [|discriminate].
    now apply (pieces_not_nil _ _ E).
  - exists colOrd. split; [reflexivity|]. intros Hin.
    apply (in_map Strconv.Atoi) in Hin. rewrite Hm in Hin.
    apply in_map_iff in Hin as (z & Hz & _). discriminate.
Qed.

Lemma order_loop_names (s1 t1 i1 s2 t2 i2 : string) (cols : list IndexColumn)
      (tokens : list string) :
  forall ret out : list IndexColumn,
    order_loop s1 t1 i1 cols tokens ret = Ok out ->
    order_loop s2 t2 i2 cols tokens ret = Ok out.
Proof.
  induction tokens as [|v l IH]; intros ret out H; cbn [order_loop] in *;
    [exact H|].
  destruct (Strconv.Atoi v); [|discriminate].
  destruct (find_column _ cols); [|discriminate]. now apply IH.
Qed.

(** X14: the table name only serves the error messages: a call that succeeds
    returns the same columns whatever table name it is given. *)
Theorem PgIndexColumns_table_irrelevant
        (db : XODB) (schema table table' index : string) (ret : list IndexColumn) :
  PgIndexColumns XODB models_PgIndexColumns models_PgGetColOrder
    db schema table index = Ok ret ->
  PgIndexColumns XODB models_PgIndexColumns models_PgGetColOrder
    db schema table' index = Ok ret.
Proof.
  unfold PgIndexColumns.
  destruct (models_PgIndexColumns db schema index) as [cols|]; [|discriminate].
  destruct (models_PgGetColOrder db schema index) as [colOrd|]; [|discriminate].
  cbv zeta. apply order_loop_names.
Qed.

End IndexColumnsMore.

Lemma PgIndexColumns_succeeds_iff_witness :
  IndexExample.fetch_cols tt "public" "orders_idx"
  = Ok [IndexExample.col_a; IndexExample.col_b; IndexExample.col_c]
  /\ IndexExample.fetch_ord "2 1 3" tt "public" "orders_idx" = Ok {| Ord := "2 1 3" |}
  /\ Forall (resolves [IndexExample.col_a; IndexExample.col_b; IndexExample.col_c])
       (Strings.Split_space "2 1 3").
Proof.
  split; [reflexivity | split; [reflexivity|]].
  apply (proj1 (PgIndexColumns_succeeds_iff unit IndexExample.fetch_cols
                  (IndexExample.fetch_ord "2 1 3") tt "public" "orders"
                  "orders_idx" _ _ eq_refl eq_refl)).
  eexists. reflexivity.
Defined.

Lemma PgIndexColumns_rearranges_witness :
  NoDup (map Cid [IndexExample.col_a; IndexExample.col_b; IndexExample.col_c])
  /\ Permutation [3; 1; 2]
       (map Cid [IndexExample.col_a; IndexExample.col_b; IndexExample.col_c])
  /\ exists ret,
      PgIndexColumns unit IndexExample.fetch_cols (IndexExample.fetch_ord "3 1 2")
        tt "public" "orders" "orders_idx" = Ok ret
      /\ map Cid ret = [3; 1; 2]
      /\ Permutation ret [IndexExample.col_a; IndexExample.col_b; IndexExample.col_c].
Proof.
  assert (Hnd : NoDup (map Cid [IndexExample.col_a; IndexExample.col_b;
                                IndexExample.col_c])).
  { cbn. repeat constructor; cbn; intuition discriminate. }
  assert (Hperm : Permutation [3; 1; 2]
                    (map Cid [IndexExample.col_a; IndexExample.col_b;
                              IndexExample.col_c])).
  { cbn. apply perm_trans with [1; 3; 2]; [apply perm_swap|].
    apply perm_skip, perm_swap. }
  split; [exact Hnd | split; [exact Hperm|]].
  exact (PgIndexColumns_rearranges unit IndexExample.fetch_cols
           (IndexExample.fetch_ord "3 1 2") tt "public" "orders" "orders_idx"
           _ _ [3; 1; 2] eq_refl eq_refl eq_refl Hnd Hperm).
Defined.

Lemma PgIndexColumns_never_empty_witness :
  PgIndexColumns unit IndexExample.fetch_cols (IndexExample.fetch_ord "2 1 3")
    tt "public" "orders" "orders_idx"
  = Ok [IndexExample.col_b; IndexExample.col_a; IndexExample.col_c]
  /\ [IndexExample.col_b; IndexExample.col_a; IndexExample.col_c] <> [].
Proof.
  split; [reflexivity|].
  exact (proj1 (PgIndexColumns_never_empty unit IndexExample.fetch_cols
                  (IndexExample.fetch_ord "2 1 3") tt "public" "orders"
                  "orders_idx" _ eq_refl)).
Defined.

Lemma PgIndexColumns_table_irrelevant_witness :
  PgIndexColumns unit IndexExample.fetch_cols (IndexExample.fetch_ord "2 1 3")
    tt "public" "orders" "orders_idx"
  = Ok [IndexExample.col_b; IndexExample.col_a; IndexExample.col_c]
  /\ PgIndexColumns unit IndexExample.fetch_cols (IndexExample.fetch_ord "2 1 3")
       tt "public" "another_table" "orders_idx"
     = Ok [IndexExample.col_b; IndexExample.col_a; IndexExample.col_c].
Proof.
  split; [reflexivity|].
  exact (PgIndexColumns_table_irrelevant unit IndexExample.fetch_cols
           (IndexExample.fetch_ord "2 1 3") tt "public" "orders" "another_table"
           "orders_idx" _ eq_refl).
Defined.

(** ** The table enumerator, further *)

Section TablesMore.

Variable XODB : Type.
Variable models_PgTables : XODB -> string -> string -> result (list Table).

(** X15: [PgTables] looks at the sequences only for the set of their table
    names: two sequence fetches whose lists have the same table names, in
    whatever order and number, and a failed fetch for an empty list, give the
    same result. *)
Theorem PgTables_sequence_names
        (models_PgSequences models_PgSequences' : XODB -> string -> result (list Sequence))
        (db : XODB) (schema relkind : string) :
  (forall name,
      In name (map SequenceTableName (sequences_used XODB models_PgSequences db schema))
      <-> In name (map SequenceTableName
                     (sequences_used XODB models_PgSequences' db schema))) ->
  PgTables XODB models_PgTables models_PgSequences db schema relkind
  = PgTables XODB models_PgTables models_PgSequences' db schema relkind.
Proof.
  intros Hnames. unfold PgTables.
  destruct (models_PgTables db schema relkind) as [rows|]; [|reflexivity].
  cbv zeta. rewrite !append_loop. do 2 f_equal. apply map_ext. intros row.
  f_equal.
  assert (Hiff : forall sequences,
             manualPk_of sequences row = false
             <-> In (TableName row) (map SequenceTableName sequences)).
  { intros sequences. rewrite manualPk_of_false, in_map_iff.
    split; intros (sq & H1 & H2); exists sq; split; assumption. }
  destruct (manualPk_of (sequences_used XODB models_PgSequences db schema) row) eqn:E1,
           (manualPk_of (sequences_used XODB models_PgSequences' db schema) row) eqn:E2;
    try reflexivity.
  - apply Hiff, Hnames, Hiff in E2. congruence.
  - apply Hiff, Hnames, Hiff in E1. congruence.
Qed.

End TablesMore.

Lemma PgTables_sequence_names_witness :
  (forall name,
      In name (map SequenceTableName
                 (sequences_used unit TablesExample.fetch_sequences tt "public"))
      <-> In name (map SequenceTableName
                     (sequences_used unit
                        (fun _ _ => Ok [ {| SequenceTableName := "order_items" |};
                                         {| SequenceTableName := "order_items" |} ])
                        tt "public")))
  /\ PgTables unit TablesExample.fetch_tables TablesExample.fetch_sequences
       tt "public" "r"
     = PgTables unit TablesExample.fetch_tables
         (fun _ _ => Ok [ {| SequenceTableName := "order_items" |};
                          {| SequenceTableName := "order_items" |} ])
         tt "public" "r".
Proof.
  assert (H : forall name,
             In name (map SequenceTableName
                        (sequences_used unit TablesExample.fetch_sequences tt "public"))
             <-> In name (map SequenceTableName
                            (sequences_used unit
                               (fun _ _ => Ok [ {| SequenceTableName := "order_items" |};
                                                {| SequenceTableName := "order_items" |} ])
                               tt "public"))).
  { intros name. cbn. tauto. }
  split; [exact H|].
  exact (PgTables_sequence_names unit TablesExample.fetch_tables _ _ tt "public" "r" H).
Defined.

(** ** The first match and the second pass *)

Module StripMatchFacts.

Import StripRE StripREFacts.





















(** *** A cast and its alias are a match *)








End StripMatchFacts.

Section SecondPass.

Import StripMatchFacts.



End SecondPass.

